(** * High Volatility Short Bot: the rebalancing engine of [bot.py]

    A shallow embedding of the allocation calculator, the volatility
    ranker, the paper-trading ledger, the live execution path and the
    4-hour scheduler of [HighVolShortBot], with the properties of the
    specification stated over it.

    Modelling conventions.
    - Python [float] values (prices, sizes, notional values, PnL) are exact
      rationals [Q]; IEEE-754 rounding, infinities and NaN are not modelled.
      Every equation on money below is a syntactic equality of the [Q]
      expression the code evaluates, so it does not depend on [Qeq].
    - Python [int] values ([N_SHORTS], [LOOKBACK], hours) are [Z].
    - A Python [dict] is an insertion-ordered association list with unique
      keys ([Dict]); iteration follows insertion order as in CPython.
    - The exchange client is external: its answers are fields of [exchange],
      read-only during one rebalance cycle.
    - [log.info] lines that name an action (CLOSE, HOLD, REVERSE, OPEN)
      are kept as a trace of [action] values, in the order they are
      emitted. *)

From Stdlib Require Import List String ZArith QArith Qround Qabs Bool Lia.
From Stdlib Require Import Sorted Permutation Lqa.
Import ListNotations.

Local Open Scope string_scope.
Local Open Scope list_scope.

(** ** Python dictionaries *)

Module Dict.

Section Ops.
Context {V : Type}.

Definition t : Type := list (string * V).

Definition empty : t := [].

(** [d[k]] / [k in d] *)
Fixpoint get (k : string) (d : t) : option V :=
  match d with
  | [] => None
  | (k', v) :: d' => if String.eqb k k' then Some v else get k d'
  end.

Definition mem (k : string) (d : t) : bool :=
  match get k d with Some _ => true | None => false end.

(** [d[k] = v]: an existing key keeps its place, a new key goes last. *)
Fixpoint set (k : string) (v : V) (d : t) : t :=
  match d with
  | [] => [(k, v)]
  | (k', v') :: d' =>
      if String.eqb k k' then (k, v) :: d' else (k', v') :: set k v d'
  end.

(** [del d[k]] *)
Definition del (k : string) (d : t) : t :=
  filter (fun kv => negb (String.eqb k (fst kv))) d.

(** [list(d.keys())] and [d.items()] *)
Definition keys (d : t) : list string := map fst d.
Definition items (d : t) : list (string * V) := d.

(** Keys of a dictionary are unique. *)
Definition wf (d : t) : Prop := NoDup (keys d).
End Ops.

Arguments t V : clear implicits.

End Dict.

(** ** Data model *)

(** The two order sides the bot ever writes: ["Buy"] (long) and ["Sell"]
    (short). *)
Inductive side : Type := Buy | Sell.

Definition side_eqb (a b : side) : bool :=
  match a, b with
  | Buy, Buy | Sell, Sell => true
  | _, _ => false
  end.

(** [{"side": ..., "value": ...}] *)
Record target : Type := mkTarget { t_side : side; t_value : Q }.

(** [{"side": ..., "size": ..., "entry": ...}] *)
Record position : Type :=
  mkPosition { p_side : side; p_size : Q; p_entry : Q }.

(** The mutable part of [HighVolShortBot] ([self.positions] is never read
    or written after [__init__]). *)
Record bot : Type :=
  mkBot { paper_positions : Dict.t position; paper_pnl : Q }.

(** [__init__] *)
Definition init : bot := mkBot Dict.empty 0.

(** The action lines [execute_paper_trade] logs. *)
Inductive action : Type :=
| CLOSE (symbol : string) (pnl : Q)
| HOLD (sd : side) (symbol : string) (size entry : Q)
| REVERSE (symbol : string) (pnl : Q)
| OPEN (sd : side) (symbol : string) (size price value : Q).

(** The amount an action line books into [paper_pnl], if any, and the
    symbol it is about. *)
Definition booked (a : action) : list Q :=
  match a with
  | CLOSE _ pnl | REVERSE _ pnl => [pnl]
  | HOLD _ _ _ _ | OPEN _ _ _ _ _ => []
  end.

Definition amounts (lg : list action) : list Q := flat_map booked lg.

Definition symbol_of (a : action) : string :=
  match a with
  | CLOSE s _ | HOLD _ s _ _ | REVERSE s _ | OPEN _ s _ _ _ => s
  end.

(** [x > 0] on exact numbers. *)
Definition Qpositive (x : Q) : bool := negb (Qle_bool x 0).

(** ** The paper ledger: [execute_paper_trade] *)

Section Paper.
(** [get_current_price]: [0] stands for an unavailable price. *)
Variable get_current_price : string -> Q.

Local Open Scope Q_scope.

(** The PnL expression of lines 173-176 and 197-200. *)
Definition realized (pos : position) (current_price : Q) : Q :=
  match p_side pos with
  | Sell => (p_entry pos - current_price) * p_size pos
  | Buy => (current_price - p_entry pos) * p_size pos
  end.

(** Body of the first loop (lines 169-179).  [symbol] comes from the
    snapshot [list(self.paper_positions.keys())] and only [symbol] itself
    is deleted in its iteration, so the lookup of line 170 cannot raise;
    the [None] branch is there for totality only. *)
Definition close_body (targets : Dict.t target)
    (st : bot * list action) (symbol : string) : bot * list action :=
  let '(b, lg) := st in
  if Dict.mem symbol targets then st
  else
    match Dict.get symbol (paper_positions b) with
    | None => st
    | Some pos =>
        let current_price := get_current_price symbol in
        let '(pnl_total, lg') :=
          if Qpositive current_price then
            let pnl := realized pos current_price in
            (paper_pnl b + pnl, lg ++ [CLOSE symbol pnl])
          else (paper_pnl b, lg) in
        (mkBot (Dict.del symbol (paper_positions b)) pnl_total, lg')
    end.

(** Body of the second loop (lines 182-210). *)
Definition adjust_body (st : bot * list action)
    (item : string * target) : bot * list action :=
  let '(b, lg) := st in
  let '(symbol, tg) := item in
  let current_price := get_current_price symbol in
  if Qle_bool current_price 0 then st
  else
    let target_size := t_value tg / current_price in
    let open_new (pnl_total : Q) (lg' : list action) :=
      (mkBot (Dict.set symbol
                (mkPosition (t_side tg) target_size current_price)
                (paper_positions b))
             pnl_total,
       lg' ++ [OPEN (t_side tg) symbol target_size current_price
                 (t_value tg)]) in
    match Dict.get symbol (paper_positions b) with
    | Some pos =>
        if side_eqb (p_side pos) (t_side tg) then
          (b, lg ++ [HOLD (t_side tg) symbol (p_size pos) (p_entry pos)])
        else
          let pnl := realized pos current_price in
          open_new (paper_pnl b + pnl) (lg ++ [REVERSE symbol pnl])
    | None => open_new (paper_pnl b) lg
    end.

Definition close_loop (targets : Dict.t target) (b : bot)
  : bot * list action :=
  fold_left (close_body targets) (Dict.keys (paper_positions b)) (b, []).

Definition adjust_loop (targets : Dict.t target)
    (st : bot * list action) : bot * list action :=
  fold_left adjust_body (Dict.items targets) st.

(** One reconciliation pass; the summary after line 212 only logs. *)
Definition execute_paper_trade (targets : Dict.t target) (b : bot)
  : bot * list action :=
  adjust_loop targets (close_loop targets b).

End Paper.

(** ** Reading the trace of a pass *)

Section PaperTrace.
Variable price : string -> Q.
Variable targets : Dict.t target.
Import Dict.

Local Open Scope Q_scope.
Local Notation "b @ s" := (get s (paper_positions b)) (at level 20).

(** What justifies a line logged by the first loop started in [b]. *)
Inductive close_event (b : bot) (ks : list string) : action -> Prop :=
| close_event_intro s pos :
    In s ks -> mem s targets = false ->
    get s (paper_positions b) = Some pos ->
    Qpositive (price s) = true ->
    close_event b ks (CLOSE s (realized pos (price s))).

(** The position line 205 writes and the line 210 logs. *)
Definition opened (s : string) (tg : target) : position :=
  mkPosition (t_side tg) (t_value tg / price s) (price s).

Definition open_line (s : string) (tg : target) : action :=
  OPEN (t_side tg) s (t_value tg / price s) (price s) (t_value tg).

(** What justifies a line logged by the second loop started in [b]. *)
Inductive adjust_event (b : bot) (items : list (string * target))
  : action -> Prop :=
| adjust_hold s tg pos :
    In (s, tg) items -> Qpositive (price s) = true ->
    b @ s = Some pos -> p_side pos = t_side tg ->
    adjust_event b items (HOLD (t_side tg) s (p_size pos) (p_entry pos))
| adjust_reverse s tg pos :
    In (s, tg) items -> Qpositive (price s) = true ->
    b @ s = Some pos -> p_side pos <> t_side tg ->
    adjust_event b items (REVERSE s (realized pos (price s)))
| adjust_open s tg :
    In (s, tg) items -> Qpositive (price s) = true ->
    (forall pos, b @ s = Some pos -> p_side pos <> t_side tg) ->
    adjust_event b items (open_line s tg).

(** What the second loop, started in [b] and ended in [b'] with the
    lines [ev], did for the item [(s, tg)]. *)
Inductive adjust_outcome (b b' : bot) (ev : list action)
    (s : string) (tg : target) : Prop :=
| outcome_skip :
    Qpositive (price s) = false -> b' @ s = b @ s ->
    adjust_outcome b b' ev s tg
| outcome_open :
    Qpositive (price s) = true -> b @ s = None ->
    b' @ s = Some (opened s tg) -> In (open_line s tg) ev ->
    adjust_outcome b b' ev s tg
| outcome_hold pos :
    Qpositive (price s) = true -> b @ s = Some pos ->
    p_side pos = t_side tg -> b' @ s = Some pos ->
    In (HOLD (t_side tg) s (p_size pos) (p_entry pos)) ev ->
    adjust_outcome b b' ev s tg
| outcome_reverse pos :
    Qpositive (price s) = true -> b @ s = Some pos ->
    p_side pos <> t_side tg -> b' @ s = Some (opened s tg) ->
    In (REVERSE s (realized pos (price s))) ev ->
    In (open_line s tg) ev ->
    adjust_outcome b b' ev s tg.

(** The line a held position of the right side gets. *)
Definition held (b : bot) (item : string * target) (a : action) : Prop :=
  exists pos, b @ (fst item) = Some pos
    /\ a = HOLD (t_side (snd item)) (fst item) (p_size pos) (p_entry pos).

End PaperTrace.

(** ** The exchange, as the bot sees it during one cycle *)

(** A row of [get_positions]: side, size and position value. *)
Record live_position : Type :=
  mkLive { l_side : side; l_size : Q; l_value : Q }.

(** An order handed to [place_order] ([orderType] is always ["Market"]). *)
Record order : Type :=
  mkOrder { o_symbol : string; o_side : side; o_qty : Q;
            o_reduce_only : bool }.

Record exchange : Type := mkExchange {
  (** [get_usdt_perp_symbols()]; [[]] when the request fails *)
  instruments : list string;
  (** the [close] column of [get_klines(symbol, "240", limit)], oldest
      first; [[]] is the empty frame *)
  closes : string -> Z -> list Q;
  (** [get_current_price(symbol)]; [0] when unavailable *)
  mark_price : string -> Q;
  (** rows of [get_positions], by symbol; [None] when it raises *)
  open_positions : option (list (string * live_position));
  (** whether [set_leverage] returns without raising *)
  leverage_ok : string -> bool;
  (** [(minOrderQty, qtyStep)] of the instrument; [None] when the lookup
      raises *)
  lot_size : string -> option (Q * Q)
}.

(** ** Concrete ledgers and markets used in the scenarios *)

Definition short_10_at_5 : bot := mkBot [("SYM", mkPosition Sell 10 5)] 0.

(** Only SYM has a price, [p]. *)
Definition sym_price (p : Q) (s : string) : Q :=
  if String.eqb s "SYM" then p else 0.

(** Only BTCUSDT has a price. *)
Definition only_btc_price (s : string) : Q :=
  if String.eqb s "BTCUSDT" then 50000 else 0.

Definition no_target : Dict.t target := [].
Definition only_btc_target : Dict.t target := [("BTCUSDT", mkTarget Buy 1000)].
Definition sym_long_1000 : Dict.t target := [("SYM", mkTarget Buy 1000)].

(** An exchange that reports one open position, a short of 10 SYM. *)
Definition holding_short_sym : exchange :=
  mkExchange ["BTCUSDT"; "SYM"] (fun _ _ => []) (sym_price 4)
    (Some [("SYM", mkLive Sell 10 50)]) (fun _ => true)
    (fun _ => Some (1 # 1000, 1 # 1000)).

(** ** Ranking and target allocation *)

(** [l[:n]] *)
Definition slice_to {A : Type} (n : Z) (l : list A) : list A :=
  if (0 <=? n)%Z then firstn (Z.to_nat n) l
  else firstn (Z.to_nat (Z.of_nat (List.length l) + n)) l.

(** [volatilities.sort(key=lambda x: x[1], reverse=True)].  Python's sort
    is stable, also with [reverse=True]; the stable descending arrangement
    of a list is unique ([stable_sort_unique] below), and insertion
    computes it. *)
Fixpoint insert_desc (x : string * Q) (l : list (string * Q))
  : list (string * Q) :=
  match l with
  | [] => [x]
  | y :: l' =>
      if Qle_bool (snd y) (snd x) then x :: y :: l'
      else y :: insert_desc x l'
  end.

Fixpoint sort_desc (l : list (string * Q)) : list (string * Q) :=
  match l with
  | [] => []
  | x :: l' => insert_desc x (sort_desc l')
  end.

(** Reading a ranking: [a] may stand before [b], and the entries whose
    volatility equals [v]. *)
Definition vol_ge (a b : string * Q) : Prop := (snd b <= snd a)%Q.

Definition same_vol (v : Q) (e : string * Q) : bool := Qeq_bool (snd e) v.

Section Strategy.
(** Configuration read from the environment at import time. *)
Variable CAPITAL : Q.
Variables N_SHORTS LOOKBACK : Z.
Variable PAPER_TRADE : bool.

(** [np.log(df["close"] / df["close"].shift(1)).tail(LOOKBACK).std()]:
    a floating-point statistic with no exact rational value, kept
    abstract; [None] is NaN. *)
Variable tail_log_return_std : Z -> list Q -> option Q.

Variable x : exchange.

Local Open Scope Q_scope.

(** [calculate_volatility] *)
Definition calculate_volatility (df : list Q) : Q :=
  if (Z.of_nat (List.length df) <? LOOKBACK)%Z then 0
  else
    match tail_log_return_std LOOKBACK df with
    | Some vol => vol
    | None => 0
    end.

(** Body of the loop of [get_top_volatile_alts] (lines 110-120). *)
Definition rank_body (volatilities : list (string * Q))
    (symbol : string) : list (string * Q) :=
  if String.eqb symbol "BTCUSDT" then volatilities
  else
    let df := closes x symbol (LOOKBACK + 5)%Z in
    match df with
    | [] => volatilities
    | _ :: _ =>
        let vol := calculate_volatility df in
        if Qpositive vol then volatilities ++ [(symbol, vol)]
        else volatilities
    end.

(** [volatilities] when the loop ends (insertion order). *)
Definition scored : list (string * Q) :=
  fold_left rank_body (instruments x) [].

(** [volatilities] after line 127. *)
Definition ranked : list (string * Q) := sort_desc scored.

(** [get_top_volatile_alts] *)
Definition get_top_volatile_alts : list (string * Q) :=
  slice_to N_SHORTS ranked.

(** [calculate_target_positions]; [None] is the [ZeroDivisionError] of
    line 155. *)
Definition calculate_target_positions (top_volatile : list (string * Q))
  : option (Dict.t target) :=
  let targets := Dict.set "BTCUSDT" (mkTarget Buy CAPITAL) Dict.empty in
  if (N_SHORTS =? 0)%Z then None
  else
    let short_value_each := CAPITAL / inject_Z N_SHORTS in
    Some (fold_left
            (fun targets sv =>
               Dict.set (fst sv) (mkTarget Sell short_value_each) targets)
            top_volatile targets).

(** [round(q)] on a float: to the nearest integer, ties to even. *)
Definition py_round (q : Q) : Z :=
  let f := Qfloor q in
  match Qcompare (q - inject_Z f) (1 # 2) with
  | Lt => f
  | Gt => (f + 1)%Z
  | Eq => if Z.even f then f else (f + 1)%Z
  end.

(** [max(a, b)] *)
Definition py_max (a b : Q) : Q := if Qpositive (b - a) then b else a.

(** [current_positions] of [execute_live_trade] (lines 238-245): the rows
    with [size > 0]. *)
Definition current_positions (rows : list (string * live_position))
  : Dict.t live_position :=
  fold_left
    (fun d row =>
       if Qpositive (l_size (snd row)) then Dict.set (fst row) (snd row) d
       else d)
    rows Dict.empty.

(** First loop of [execute_live_trade] (lines 251-265): the order is
    handed to [place_order] whether or not the exchange accepts it. *)
Definition live_close_body (targets : Dict.t target)
    (orders : list order) (item : string * live_position) : list order :=
  let '(symbol, pos) := item in
  if Dict.mem symbol targets then orders
  else
    let close_side := match l_side pos with Buy => Sell | Sell => Buy end in
    orders ++ [mkOrder symbol close_side (l_size pos) true].

(** Second loop (lines 268-304).  Every exception inside the [try]
    drops the symbol: a failed [set_leverage] or instrument lookup, and
    the [ZeroDivisionError] of a zero price or a zero [qtyStep]. *)
Definition live_open_body (current : Dict.t live_position)
    (orders : list order) (item : string * target) : list order :=
  let '(symbol, tg) := item in
  if Dict.mem symbol current then orders
  else if negb (leverage_ok x symbol) then orders
  else
    match lot_size x symbol with
    | None => orders
    | Some (min_qty, qty_step) =>
        let price := mark_price x symbol in
        if Qeq_bool price 0 then orders
        else
          let qty := t_value tg / price in
          if Qeq_bool qty_step 0 then orders
          else
            let qty :=
              py_max min_qty
                (inject_Z (py_round (qty / qty_step)) * qty_step) in
            orders ++ [mkOrder symbol (t_side tg) qty false]
    end.

(** [execute_live_trade]: the orders handed to [place_order], in order. *)
Definition execute_live_trade (targets : Dict.t target) : list order :=
  match open_positions x with
  | None => []
  | Some rows =>
      let current := current_positions rows in
      fold_left (live_open_body current) (Dict.items targets)
        (fold_left (live_close_body targets) (Dict.items current) [])
  end.

(** What one call of [run_once] did: the warning of line 315, the
    exception of line 155 leaving the call, or one of the two execution
    paths. *)
Inductive outcome : Type :=
| InsufficientUniverse (found : nat)
| ZeroDivisionError
| PaperTraded (lg : list action)
| LiveTraded (orders : list order).

(** [run_once] *)
Definition run_once (b : bot) : bot * outcome :=
  let top_volatile := get_top_volatile_alts in
  if (Z.of_nat (List.length top_volatile) <? N_SHORTS)%Z then
    (b, InsufficientUniverse (List.length top_volatile))
  else
    match calculate_target_positions top_volatile with
    | None => (b, ZeroDivisionError)
    | Some targets =>
        if PAPER_TRADE then
          let '(b', lg) :=
            execute_paper_trade (mark_price x) targets b in
          (b', PaperTraded lg)
        else (b, LiveTraded (execute_live_trade targets))
    end.

End Strategy.

(** Number of entries of an allocation on side [sd]. *)
Definition count_side (sd : side) (targets : Dict.t target) : nat :=
  List.length
    (filter (fun kv => side_eqb (t_side (snd kv)) sd) (Dict.items targets)).

(** ** The scheduler clock: [get_next_rebalance_time] *)

Module Clock.

Local Open Scope Z_scope.

(** A [datetime] in UTC. *)
Record datetime : Type := mkDatetime {
  year : Z; month : Z; day : Z;
  hour : Z; minute : Z; second : Z; microsecond : Z
}.

Definition is_leap (y : Z) : bool :=
  (y mod 4 =? 0) && (negb (y mod 100 =? 0) || (y mod 400 =? 0)).

Definition days_in_month (y m : Z) : Z :=
  if m =? 2 then (if is_leap y then 29 else 28)
  else if (m =? 4) || (m =? 6) || (m =? 9) || (m =? 11) then 30
  else 31.

Definition MAXYEAR : Z := 9999.

(** The values the [datetime] constructor accepts. *)
Definition valid (t : datetime) : bool :=
  (1 <=? year t) && (year t <=? MAXYEAR) &&
  (1 <=? month t) && (month t <=? 12) &&
  (1 <=? day t) && (day t <=? days_in_month (year t) (month t)) &&
  (0 <=? hour t) && (hour t <=? 23) &&
  (0 <=? minute t) && (minute t <=? 59) &&
  (0 <=? second t) && (second t <=? 59) &&
  (0 <=? microsecond t) && (microsecond t <=? 999999).

(** [now.date() + pd.Timedelta(days=1)]: the next calendar day;
    [None] is the [OverflowError] past 9999-12-31. *)
Definition next_day (y m d : Z) : option (Z * Z * Z) :=
  if d <? days_in_month y m then Some (y, m, d + 1)
  else if m <? 12 then Some (y, m + 1, 1)
  else if y <? MAXYEAR then Some (y + 1, 1, 1)
  else None.

(** [get_next_rebalance_time], with [now] made a parameter. *)
Definition get_next_rebalance_time (now : datetime) : option datetime :=
  let current_hour := hour now in
  let next_hour := (current_hour / 4 + 1) * 4 in
  if 24 <=? next_hour then
    let next_hour := 0 in
    match next_day (year now) (month now) (day now) with
    | Some (y, m, d) => Some (mkDatetime y m d next_hour 0 0 0)
    | None => None
    end
  else
    Some (mkDatetime (year now) (month now) (day now) next_hour 0 0 0).

(** The proleptic Gregorian ordinal of a date ([date.toordinal]). *)
Definition days_before_year (y : Z) : Z :=
  let y' := y - 1 in y' * 365 + y' / 4 - y' / 100 + y' / 400.

Definition days_before_month (y m : Z) : Z :=
  let feb := if is_leap y then 29 else 28 in
  if m =? 1 then 0 else
  if m =? 2 then 31 else
  if m =? 3 then 31 + feb else
  if m =? 4 then 62 + feb else
  if m =? 5 then 92 + feb else
  if m =? 6 then 123 + feb else
  if m =? 7 then 153 + feb else
  if m =? 8 then 184 + feb else
  if m =? 9 then 215 + feb else
  if m =? 10 then 245 + feb else
  if m =? 11 then 276 + feb else 306 + feb.

Definition toordinal (y m d : Z) : Z :=
  days_before_year y + days_before_month y m + d.

(** Microseconds since the start of day 0: the timeline on which
    [datetime] differences are taken. *)
Definition instant (t : datetime) : Z :=
  (((toordinal (year t) (month t) (day t) * 24 + hour t) * 60
    + minute t) * 60 + second t) * 1000000 + microsecond t.

Definition four_hours : Z := 4 * 60 * 60 * 1000000.

(** An exact 4-hour UTC mark. *)
Definition is_mark (t : datetime) : bool :=
  (hour t mod 4 =? 0) && (minute t =? 0) && (second t =? 0)
  && (microsecond t =? 0).

End Clock.

(** ** Further parts of the bot *)

(** The summary [execute_paper_trade] logs after a pass (lines 212-229). *)
Section PaperSummary.
Variable get_current_price : string -> Q.
Variable CAPITAL : Q.

Local Open Scope Q_scope.




End PaperSummary.




(** A row of [get_instruments_info]. *)
Record instrument : Type := mkInstrument {
  i_symbol : string; i_quote_coin : string; i_status : string;
  i_contract_type : string
}.

(** [get_usdt_perp_symbols]; [None] is a request that raises. *)
Definition is_active_usdt_perp (s : instrument) : bool :=
  String.eqb (i_quote_coin s) "USDT"
  && String.eqb (i_status s) "Trading"
  && String.eqb (i_contract_type s) "LinearPerpetual".

Definition get_usdt_perp_symbols (response : option (list instrument))
  : list string :=
  match response with
  | Some rows => map i_symbol (filter is_active_usdt_perp rows)
  | None => []
  end.

(** [close_side] of line 254. *)
Definition opposite (sd : side) : side :=
  match sd with Buy => Sell | Sell => Buy end.

(** The quantity of lines 288-289. *)
Definition open_qty (tg : target) (price min_qty qty_step : Q) : Q :=
  py_max min_qty
    (inject_Z (py_round (t_value tg / price / qty_step)) * qty_step).

(** Whether the second loop of [execute_live_trade] reaches [place_order]
    for a symbol: it is not held, [set_leverage] and the instrument lookup
    succeed, and neither the price nor [qtyStep] is zero. *)
Definition opens_for (x : exchange) (current : Dict.t live_position)
    (symbol : string) : bool :=
  negb (Dict.mem symbol current) && leverage_ok x symbol
  && match lot_size x symbol with
     | Some (_, qty_step) =>
         negb (Qeq_bool (mark_price x symbol) 0) && negb (Qeq_bool qty_step 0)
     | None => false
     end.

(** One turn of the loop of [run_loop] (lines 354-360). *)
Module Loop.
Import Clock.

(** From 20:00 on the last day a Python date can hold. *)
Definition last_evening (t : datetime) : Prop :=
  (year t = MAXYEAR /\ month t = 12 /\ day t = 31 /\ 20 <= hour t)%Z.




End Loop.

(** An allocation of two symbols. *)
Definition two_targets : Dict.t target :=
  [("BTCUSDT", mkTarget Buy 1000); ("SYM", mkTarget Sell 500)].

(** An exchange that reports one open position, a long of 3 ALT. *)
Definition holding_long_alt : exchange :=
  mkExchange ["BTCUSDT"; "SYM"; "ALT"] (fun _ _ => []) (sym_price 4)
    (Some [("ALT", mkLive Buy 3 30)]) (fun _ => true)
    (fun _ => Some (1 # 1000, 1 # 1000)).

(** ** Concrete rankings, markets and times used in the scenarios *)

(** Scenario B of the specification. *)
Definition scenario_B_ranked : list (string * Q) :=
  [("X", 5 # 10); ("Y", 4 # 10); ("Z", 3 # 10)].

(** A ranked input that holds the reference asset. *)
Definition ranked_with_reference : list (string * Q) :=
  [("X", 5 # 10); ("BTCUSDT", 4 # 10)].

(** A stand-in for the floating-point statistic: the distance between the
    first and the last close. *)
Definition first_last_distance (lookback : Z) (df : list Q) : option Q :=
  match df with
  | [] => None
  | c :: _ => Some (Qabs (last df c - c))
  end.

Definition three_alts_closes (s : string) (limit : Z) : list Q :=
  if String.eqb s "AAA" then [100; 101; 99; 102]
  else if String.eqb s "BBB" then [7; 8]
  else if String.eqb s "CCC" then [50; 51; 52; 55]
  else if String.eqb s "BTCUSDT" then [1; 2; 3; 4]
  else [].

(** An exchange with three alts; BBB has two candles only. *)
Definition three_alts : exchange :=
  mkExchange ["BTCUSDT"; "AAA"; "BBB"; "CCC"] three_alts_closes
    (fun _ => 10) None (fun _ => true) (fun _ => None).

(** The same instruments and candles on another day's prices. *)
Definition three_alts_repriced : exchange :=
  mkExchange ["BTCUSDT"; "AAA"; "BBB"; "CCC"] three_alts_closes
    (fun _ => 11) (Some []) (fun _ => false) (fun _ => None).

Definition new_year_eve_evening : Clock.datetime :=
  Clock.mkDatetime 2024 12 31 21 5 3 7.

(** An instrument query answered with the instruments of [three_alts]
    and two rows the bot does not trade. *)
Definition listing_rows : list instrument :=
  [mkInstrument "BTCUSDT" "USDT" "Trading" "LinearPerpetual";
   mkInstrument "ETHPERP" "USDC" "Trading" "LinearPerpetual";
   mkInstrument "AAA" "USDT" "Trading" "LinearPerpetual";
   mkInstrument "BBB" "USDT" "Trading" "LinearPerpetual";
   mkInstrument "OLD" "USDT" "Closed" "LinearPerpetual";
   mkInstrument "CCC" "USDT" "Trading" "LinearPerpetual"].

(** * Properties *)

(** ** Dictionary facts *)

Module DictFacts.
Import Dict.

Section Facts.
Context {V : Type}.
Implicit Types (d : Dict.t V) (k : string) (v : V).

Lemma get_set_same k v d : get k (set k v d) = Some v.
Proof.
  induction d as [|[k' v'] d IH]; simpl.
  - now rewrite String.eqb_refl.
  - destruct (String.eqb k k') eqn:E; simpl; rewrite ?String.eqb_refl, ?E;
      auto.
Qed.

Lemma get_set_other k k' v d : k <> k' -> get k' (set k v d) = get k' d.
Proof.
  intros Hne. induction d as [|[k0 v0] d IH]; simpl.
  - destruct (String.eqb_spec k' k); congruence.
  - destruct (String.eqb_spec k k0) as [->|Hk]; simpl.
    + destruct (String.eqb_spec k' k0); congruence.
    + now rewrite IH.
Qed.

Lemma get_del_same k d : get k (del k d) = None.
Proof.
  induction d as [|[k0 v0] d IH]; simpl; auto.
  destruct (String.eqb_spec k k0) as [->|Hk]; simpl; auto.
  destruct (String.eqb_spec k k0); congruence.
Qed.

Lemma get_del_other k k' d : k <> k' -> get k' (del k d) = get k' d.
Proof.
  intros Hne. induction d as [|[k0 v0] d IH]; simpl; auto.
  destruct (String.eqb_spec k k0) as [->|Hk]; simpl.
  - destruct (String.eqb_spec k' k0); congruence.
  - now rewrite IH.
Qed.

Lemma get_None k d : get k d = None <-> ~ In k (keys d).
Proof.
  induction d as [|[k0 v0] d IH]; simpl.
  - tauto.
  - destruct (String.eqb_spec k k0) as [->|Hk].
    + split; [discriminate | tauto].
    + rewrite IH. split; [intros H [E|HI]; congruence | tauto].
Qed.

Lemma get_Some_In k v d : get k d = Some v -> In (k, v) d.
Proof.
  induction d as [|[k0 v0] d IH]; simpl; [discriminate|].
  destruct (String.eqb_spec k k0) as [->|Hk].
  - intros [= ->]. now left.
  - auto.
Qed.

Lemma In_get k v d : wf d -> In (k, v) d -> get k d = Some v.
Proof.
  unfold wf. induction d as [|[k0 v0] d IH]; simpl; [tauto|].
  intros Hnd [[= -> ->]|HI].
  - now rewrite String.eqb_refl.
  - inversion Hnd as [|? ? Hnot Hnd']; subst.
    destruct (String.eqb_spec k k0) as [->|Hk].
    + exfalso. apply Hnot. change (In (fst (k0, v)) (map fst d)).
      now apply in_map.
    + auto.
Qed.

Lemma mem_true k d : mem k d = true <-> In k (keys d).
Proof.
  unfold mem. destruct (get k d) eqn:E.
  - split; auto. intros _. apply get_Some_In in E.
    change k with (fst (k, v)). now apply in_map.
  - apply get_None in E. split; [discriminate | tauto].
Qed.


Lemma keys_set k v d :
  forall k', In k' (keys (set k v d)) <-> k' = k \/ In k' (keys d).
Proof.
  induction d as [|[k0 v0] d IH]; simpl; intros k'.
  - intuition.
  - destruct (String.eqb_spec k k0) as [->|Hk]; simpl.
    + intuition.
    + rewrite IH. intuition.
Qed.

Lemma wf_set k v d : wf d -> wf (set k v d).
Proof.
  unfold wf. induction d as [|[k0 v0] d IH]; simpl; intros Hnd.
  - constructor; [tauto | constructor].
  - inversion Hnd as [|? ? Hnot Hnd']; subst.
    destruct (String.eqb_spec k k0) as [->|Hk]; simpl.
    + now constructor.
    + constructor; auto. intros HI. apply keys_set in HI.
      destruct HI; [congruence | tauto].
Qed.

Lemma wf_del k d : wf d -> wf (del k d).
Proof.
  unfold wf, del. induction d as [|[k0 v0] d IH]; simpl; intros Hnd; auto.
  inversion Hnd as [|? ? Hnot Hnd']; subst.
  destruct (negb (String.eqb k k0)); simpl; auto.
  constructor; auto. intros HI. apply Hnot.
  apply in_map_iff in HI. destruct HI as [[k1 v1] [E HI]].
  apply filter_In in HI. apply in_map_iff. exists (k1, v1). tauto.
Qed.
(** Writing fresh keys appends them. *)
Lemma set_fresh k v d :
  ~ In k (keys d) -> set k v d = d ++ [(k, v)].
Proof.
  induction d as [|[k0 v0] d IH]; simpl; intros Hn; auto.
  destruct (String.eqb_spec k k0) as [->|Hk]; [tauto|].
  rewrite IH; tauto.
Qed.

Lemma fold_set_fresh (f : string * Q -> V)
    (l : list (string * Q)) : forall d,
  NoDup (map fst l) ->
  (forall k, In k (map fst l) -> ~ In k (keys d)) ->
  fold_left (fun t sv => set (fst sv) (f sv) t) l d
  = d ++ map (fun sv => (fst sv, f sv)) l.
Proof.
  induction l as [|e l IH]; intros d Hnd Hd; simpl.
  - now rewrite app_nil_r.
  - simpl in Hnd. inversion Hnd as [|? ? Hn Hnd']; subst.
    rewrite set_fresh by (apply Hd; now left).
    rewrite IH; auto.
    + now rewrite <- app_assoc.
    + intros k Hk Hin. unfold keys in Hin. rewrite map_app in Hin.
      apply in_app_or in Hin. destruct Hin as [Hin|[<-|[]]]; auto.
      apply (Hd k); auto. now right.
Qed.

Lemma In_set_inv k v d s w :
  wf d -> In (s, w) (set k v d) ->
  (s = k /\ w = v) \/ (s <> k /\ In (s, w) d).
Proof.
  unfold wf. induction d as [|[k0 v0] d IH]; simpl; intros Hnd Hi.
  - destruct Hi as [[= <- <-]|[]]. auto.
  - inversion Hnd as [|? ? Hn Hnd']; subst.
    destruct (String.eqb_spec k k0) as [->|Hk].
    + destruct Hi as [[= <- <-]|Hi]; auto.
      right. split; auto. intros ->. apply Hn.
      change k0 with (fst (k0, w)). now apply in_map.
    + destruct Hi as [[= <- <-]|Hi]; auto.
      destruct (IH Hnd' Hi) as [?|[? ?]]; auto.
Qed.

(** Every entry whose key is written again ends as written. *)
Lemma fold_set_overwrites v (P : V -> Prop)
    (l : list (string * Q)) : forall d,
  wf d -> P v ->
  (forall s w, In (s, w) d -> P w \/ In s (map fst l)) ->
  forall s w,
    In (s, w) (fold_left (fun t sv => set (fst sv) v t) l d) -> P w.
Proof.
  induction l as [|e l IH]; intros d Hwf Hv Hd s w Hi; simpl in Hi.
  - destruct (Hd s w Hi) as [?|[]]; auto.
  - eapply IH; [apply wf_set, Hwf|exact Hv| |exact Hi].
    intros s' w' Hi'. apply In_set_inv in Hi'; auto.
    destruct Hi' as [[-> ->]|[Hne Hi']]; auto.
    destruct (Hd s' w' Hi') as [?|[?|?]]; auto. congruence.
Qed.
Lemma fold_set_get_other v (l : list (string * Q)) k :
  forall d, ~ In k (map fst l) ->
  get k (fold_left (fun t sv => set (fst sv) v t) l d) = get k d.
Proof.
  induction l as [|e l IH]; intros d Hn; simpl in *; auto.
  rewrite IH by tauto. apply get_set_other. tauto.
Qed.

Lemma fold_set_get v (l : list (string * Q)) k :
  forall d, In k (map fst l) ->
  get k (fold_left (fun t sv => set (fst sv) v t) l d) = Some v.
Proof.
  induction l as [|e l IH]; intros d Hi; simpl in *; [tauto|].
  destruct (in_dec string_dec k (map fst l)) as [Hl|Hl].
  - now apply IH.
  - rewrite fold_set_get_other by auto.
    destruct Hi as [<-|Hi]; [apply get_set_same | tauto].
Qed.
End Facts.

End DictFacts.

(** ** The two loops of the paper ledger *)

Lemma Qpositive_lt (p : Q) : Qpositive p = true <-> (0 < p)%Q.
Proof.
  unfold Qpositive. rewrite negb_true_iff. split.
  - intros H. apply Qnot_le_lt. intros Hle.
    apply Qle_bool_iff in Hle. congruence.
  - intros H. destruct (Qle_bool p 0) eqn:E; auto.
    apply Qle_bool_iff in E. exfalso. now apply (Qlt_not_le 0 p).
Qed.

Lemma Qle_bool_positive (p : Q) : Qle_bool p 0 = negb (Qpositive p).
Proof. unfold Qpositive. now rewrite negb_involutive. Qed.

Lemma amounts_app (l1 l2 : list action) :
  amounts (l1 ++ l2) = amounts l1 ++ amounts l2.
Proof. apply flat_map_app. Qed.

Section PaperFacts.
Variable price : string -> Q.
Variable targets : Dict.t target.
Import Dict DictFacts.

Lemma close_fold_spec ks : forall b lg b' lg',
  fold_left (close_body price targets) ks (b, lg) = (b', lg') ->
  exists ev,
    lg' = lg ++ ev
    /\ paper_pnl b' = fold_left Qplus (amounts ev) (paper_pnl b)
    /\ (forall s, get s (paper_positions b') =
                  if mem s targets then get s (paper_positions b)
                  else if existsb (String.eqb s) ks then None
                  else get s (paper_positions b))
    /\ (forall a, In a ev -> close_event price targets b ks a)
    /\ (forall s pos, In s ks -> mem s targets = false ->
          get s (paper_positions b) = Some pos ->
          Qpositive (price s) = true ->
          In (CLOSE s (realized pos (price s))) ev).
Proof.
  induction ks as [|k ks IH]; intros b lg b' lg' Hf; simpl in Hf.
  - injection Hf as <- <-. exists []. rewrite app_nil_r.
    repeat split; simpl; try tauto.
    intros s. now destruct (mem s targets).
  - destruct (mem k targets) eqn:Hk.
    { (* targeted: not visited *)
      destruct (IH _ _ _ _ Hf) as (ev & -> & Hp & Hg & He & Hc).
      exists ev. repeat split; auto.
      - intros s. rewrite Hg. simpl.
        destruct (mem s targets) eqn:Hs; auto.
        destruct (String.eqb_spec s k) as [->|]; [congruence | auto].
      - intros a Ha. destruct (He a Ha). econstructor; eauto. now right.
      - intros s pos [<-|Hi] Hs; [congruence | eauto]. }
    destruct (get k (paper_positions b)) as [pos|] eqn:Hpos.
    2:{ (* already gone *)
      destruct (IH _ _ _ _ Hf) as (ev & -> & Hp & Hg & He & Hc).
      exists ev. repeat split; auto.
      - intros s. rewrite Hg. simpl.
        destruct (mem s targets) eqn:Hs; auto.
        destruct (String.eqb_spec s k) as [->|]; simpl; auto.
        now destruct (existsb (String.eqb k) ks).
      - intros a Ha. destruct (He a Ha). econstructor; eauto. now right.
      - intros s pos [<-|Hi] Hs; [congruence | eauto]. }
    (* closed *)
    assert (Hother : forall s, s <> k ->
              get s (del k (paper_positions b)) = get s (paper_positions b))
      by (intros; apply get_del_other; congruence).
    destruct (Qpositive (price k)) eqn:Hpx;
      destruct (IH _ _ _ _ Hf) as (ev & -> & Hp & Hg & He & Hc);
      cbn [paper_positions paper_pnl] in *.
    + exists (CLOSE k (realized pos (price k)) :: ev).
      rewrite <- app_assoc. repeat split; auto.
      * intros s. rewrite Hg. simpl.
        destruct (mem s targets) eqn:Hs.
        { apply Hother. congruence. }
        destruct (String.eqb_spec s k) as [->|Hne]; simpl.
        { rewrite get_del_same. now destruct (existsb _ ks). }
        now rewrite Hother.
      * intros a [<-|Ha].
        { econstructor; eauto. now left. }
        destruct (He a Ha) as [s p Hi Hs Hgs Hps].
        cbn [paper_positions] in Hgs.
        destruct (String.eqb_spec s k) as [->|Hne].
        { rewrite get_del_same in Hgs. discriminate. }
        rewrite Hother in Hgs by auto. econstructor; eauto. now right.
      * intros s p [<-|Hi] Hs Hgs Hps.
        { left. congruence. }
        destruct (String.eqb_spec s k) as [->|Hne].
        { left. congruence. }
        right. apply Hc; auto. now rewrite Hother.
    + exists ev. repeat split; auto.
      * intros s. rewrite Hg. simpl.
        destruct (mem s targets) eqn:Hs.
        { apply Hother. congruence. }
        destruct (String.eqb_spec s k) as [->|Hne]; simpl.
        { rewrite get_del_same. now destruct (existsb _ ks). }
        now rewrite Hother.
      * intros a Ha.
        destruct (He a Ha) as [s p Hi Hs Hgs Hps].
        cbn [paper_positions] in Hgs.
        destruct (String.eqb_spec s k) as [->|Hne].
        { rewrite get_del_same in Hgs. discriminate. }
        rewrite Hother in Hgs by auto. econstructor; eauto. now right.
      * intros s p [<-|Hi] Hs Hgs Hps; [congruence|].
        destruct (String.eqb_spec s k) as [->|Hne]; [congruence|].
        apply Hc; auto. now rewrite Hother.
Qed.

Local Notation "b @ s" := (get s (paper_positions b)) (at level 20).

(** The lookup of line 170 never raises: when the first loop reaches a
    key of the snapshot, the ledger still holds it, with the position it
    had when the pass started. *)
Lemma first_loop_lookup_defined b lg visited k rest :
  wf (paper_positions b) ->
  keys (paper_positions b) = visited ++ k :: rest ->
  let b_k := fst (fold_left (close_body price targets) visited (b, lg)) in
  get k (paper_positions b_k) = get k (paper_positions b)
  /\ get k (paper_positions b) <> None.
Proof.
  intros Hwf Hk.
  destruct (fold_left (close_body price targets) visited (b, lg))
    as [b_k lg_k] eqn:Hf.
  destruct (close_fold_spec _ _ _ _ _ Hf) as (_ & _ & _ & Hg & _).
  cbn [fst]. split.
  - rewrite Hg. destruct (mem k targets); auto.
    destruct (existsb (String.eqb k) visited) eqn:Hex; auto.
    apply existsb_exists in Hex. destruct Hex as (k' & Hin & Heq).
    apply String.eqb_eq in Heq. subst k'.
    unfold wf in Hwf. rewrite Hk in Hwf.
    apply NoDup_remove_2 in Hwf. exfalso. apply Hwf.
    apply in_or_app. now left.
  - intros Hn. apply get_None in Hn. apply Hn. rewrite Hk.
    apply in_or_app. right. now left.
Qed.

Lemma side_eqb_eq (a c : side) : side_eqb a c = true <-> a = c.
Proof. destruct a, c; simpl; split; congruence. Qed.

Lemma adjust_body_spec b lg k tg :
  exists b1 ev1,
    adjust_body price (b, lg) (k, tg) = (b1, lg ++ ev1)
    /\ paper_pnl b1 = fold_left Qplus (amounts ev1) (paper_pnl b)
    /\ (forall s, s <> k -> b1 @ s = b @ s)
    /\ (forall a, In a ev1 -> adjust_event price b [(k, tg)] a)
    /\ adjust_outcome price b b1 ev1 k tg.
Proof.
  unfold adjust_body. rewrite Qle_bool_positive.
  destruct (Qpositive (price k)) eqn:Hpx; simpl negb; cbv iota.
  2:{ exists b, []. rewrite app_nil_r. repeat split; simpl; try tauto.
      now apply outcome_skip. }
  assert (Hin : In (k, tg) [(k, tg)]) by now left.
  destruct (b @ k) as [pos|] eqn:Hpos.
  - destruct (side_eqb (p_side pos) (t_side tg)) eqn:Hsd.
    + apply side_eqb_eq in Hsd.
      exists b, [HOLD (t_side tg) k (p_size pos) (p_entry pos)].
      repeat split; auto.
      * intros a [<-|[]]. eapply adjust_hold; eauto.
      * eapply outcome_hold; eauto. now left.
    + assert (Hne : p_side pos <> t_side tg).
      { intros E. apply side_eqb_eq in E. congruence. }
      eexists _, [REVERSE k (realized pos (price k)); open_line price k tg].
      rewrite <- app_assoc. split; [reflexivity|].
      cbn [paper_positions paper_pnl]. repeat split; auto.
      * intros s Hs. apply get_set_other. congruence.
      * intros a [<-|[<-|[]]].
        { eapply adjust_reverse; eauto. }
        { eapply adjust_open; eauto. intros p Hp. congruence. }
      * eapply outcome_reverse; eauto; cbn [paper_positions].
        { apply get_set_same. }
        { now left. }
        { right. now left. }
  - eexists _, [open_line price k tg]. split; [reflexivity|].
    cbn [paper_positions paper_pnl]. repeat split; auto.
    + intros s Hs. apply get_set_other. congruence.
    + intros a [<-|[]]. eapply adjust_open; eauto. congruence.
    + eapply outcome_open; eauto; cbn [paper_positions].
      { apply get_set_same. }
      { now left. }
Qed.

Lemma adjust_event_weaken b1 b items items' a :
  (forall s, In s (map fst items) -> b1 @ s = b @ s) ->
  incl items items' ->
  adjust_event price b1 items a -> adjust_event price b items' a.
Proof.
  intros Hsame Hincl Ha.
  assert (Hk : forall s tg, In (s, tg) items -> b1 @ s = b @ s).
  { intros s tg Hi. apply Hsame. change s with (fst (s, tg)).
    now apply in_map. }
  destruct Ha as [s tg pos Hi Hp Hg Hs|s tg pos Hi Hp Hg Hs|s tg Hi Hp Hg].
  - eapply adjust_hold; eauto. now rewrite <- (Hk s tg).
  - eapply adjust_reverse; eauto. now rewrite <- (Hk s tg).
  - eapply adjust_open; eauto. rewrite <- (Hk s tg); auto.
Qed.

Lemma adjust_outcome_weaken b0 b b1 b' ev ev' s tg :
  b @ s = b0 @ s -> b1 @ s = b' @ s -> incl ev ev' ->
  adjust_outcome price b b1 ev s tg -> adjust_outcome price b0 b' ev' s tg.
Proof.
  intros Hb Hb' Hincl
    [Hpx Hg|Hpx Hg Hg' Hi|pos Hpx Hg Hs Hg' Hi|pos Hpx Hg Hs Hg' Hi Hi'].
  - apply outcome_skip; congruence.
  - apply outcome_open; auto; congruence.
  - eapply outcome_hold; eauto; congruence.
  - eapply outcome_reverse; eauto; congruence.
Qed.

Lemma adjust_fold_spec items :
  NoDup (map fst items) -> forall b lg b' lg',
  fold_left (adjust_body price) items (b, lg) = (b', lg') ->
  exists ev,
    lg' = lg ++ ev
    /\ paper_pnl b' = fold_left Qplus (amounts ev) (paper_pnl b)
    /\ (forall s, ~ In s (map fst items) -> b' @ s = b @ s)
    /\ (forall a, In a ev -> adjust_event price b items a)
    /\ (forall s tg, In (s, tg) items -> adjust_outcome price b b' ev s tg).
Proof.
  induction items as [|[k tg] items IH]; intros Hnd b lg b' lg' Hf.
  - injection Hf as <- <-. exists []. rewrite app_nil_r.
    repeat split; simpl; tauto.
  - cbn [fold_left] in Hf. simpl in Hnd.
    inversion Hnd as [|? ? Hk Hnd']; subst.
    destruct (adjust_body_spec b lg k tg)
      as (b1 & ev1 & Hb & Hp1 & Hfr1 & He1 & Ho1).
    rewrite Hb in Hf.
    destruct (IH Hnd' _ _ _ _ Hf) as (ev & -> & Hp & Hfr & He & Ho).
    assert (Hrest : forall s, In s (map fst items) -> b1 @ s = b @ s).
    { intros s Hs. apply Hfr1. congruence. }
    exists (ev1 ++ ev). rewrite app_assoc. split; [reflexivity|].
    split; [|split; [|split]].
    + now rewrite amounts_app, fold_left_app, <- Hp1.
    + intros s Hs. simpl in Hs.
      rewrite Hfr by tauto. apply Hfr1. intros ->. tauto.
    + intros a Ha. apply in_app_or in Ha. destruct Ha as [Ha|Ha].
      * eapply adjust_event_weaken; [| |apply (He1 a Ha)]; auto.
        intros i [<-|[]]. now left.
      * eapply adjust_event_weaken; [exact Hrest| |apply (He a Ha)].
        intros i Hi. now right.
    + intros s tg' [[= <- <-]|Hi].
      * eapply adjust_outcome_weaken; [| | |exact Ho1]; auto.
        { symmetry. now apply Hfr. }
        { intros a Ha. apply in_or_app. now left. }
      * eapply adjust_outcome_weaken; [| | |exact (Ho s tg' Hi)]; auto.
        { apply Hrest. change s with (fst (s, tg')). now apply in_map. }
        { intros a Ha. apply in_or_app. now right. }
Qed.

Lemma adjust_event_priced b items a :
  adjust_event price b items a -> Qpositive (price (symbol_of a)) = true.
Proof. now intros [s tg pos ? ? ? ?|s tg pos ? ? ? ?|s tg ? ? ?]. Qed.

(** One whole pass, started in [b]. *)
Lemma pass_spec b b' lg :
  wf targets ->
  execute_paper_trade price targets b = (b', lg) ->
  paper_pnl b' = fold_left Qplus (amounts lg) (paper_pnl b)
  /\ (forall a, In a lg ->
        close_event price targets b (keys (paper_positions b)) a
        \/ adjust_event price b targets a)
  /\ (forall s, mem s targets = false -> b' @ s = None)
  /\ (forall s pos, mem s targets = false -> b @ s = Some pos ->
        Qpositive (price s) = true ->
        In (CLOSE s (realized pos (price s))) lg)
  /\ (forall s tg, In (s, tg) targets -> adjust_outcome price b b' lg s tg).
Proof.
  intros Hwf. unfold execute_paper_trade, adjust_loop, close_loop, items.
  destruct (fold_left (close_body price targets) _ (b, [])) as [bc lgc] eqn:Hc.
  intros Ha.
  destruct (close_fold_spec _ _ _ _ _ Hc) as (evc & -> & Hpc & Hgc & Hec & Hcc).
  destruct (adjust_fold_spec _ Hwf _ _ _ _ Ha)
    as (eva & -> & Hpa & Hfa & Hea & Hoa).
  simpl app in *.
  assert (Hkeep : forall s, In s (keys targets) -> bc @ s = b @ s).
  { intros s Hs. rewrite Hgc. apply mem_true in Hs. now rewrite Hs. }
  split; [|split; [|split; [|split]]].
  - now rewrite amounts_app, fold_left_app, <- Hpc.
  - intros a Hi. apply in_app_or in Hi. destruct Hi as [Hi|Hi]; auto.
    right. eapply adjust_event_weaken; [exact Hkeep| |exact (Hea a Hi)].
    apply incl_refl.
  - intros s Hs. rewrite Hfa.
    + rewrite Hgc, Hs.
      destruct (existsb (String.eqb s) _) eqn:Hex; auto.
      apply get_None. intros Hi.
      assert (existsb (String.eqb s) (keys (paper_positions b)) = true).
      { apply existsb_exists. exists s. now rewrite String.eqb_refl. }
      congruence.
    + intros Hi. apply mem_true in Hi. unfold keys in Hi. congruence.
  - intros s pos Hs Hg Hpx. apply in_or_app. left. apply Hcc; auto.
    destruct (get_None s (paper_positions b)) as [_ Hn].
    destruct (in_dec string_dec s (keys (paper_positions b))); auto.
    rewrite Hn in Hg by auto. discriminate.
  - intros s tg Hi.
    eapply adjust_outcome_weaken; [| | |exact (Hoa s tg Hi)]; auto.
    + apply Hkeep. change s with (fst (s, tg)). now apply in_map.
    + intros a Hin. apply in_or_app. now right.
Qed.

End PaperFacts.

(** ** The live path places no order for a symbol it already holds *)

Section LiveFacts.
Variable x : exchange.
Variable targets : Dict.t target.
Import Dict DictFacts.

Lemma live_close_orders items : forall orders o,
  In o (fold_left (live_close_body targets) items orders) ->
  In o orders \/ mem (o_symbol o) targets = false.
Proof.
  induction items as [|[s pos] items IH]; intros orders o Ho; simpl in Ho.
  - now left.
  - destruct (mem s targets) eqn:Hs.
    + now apply IH.
    + apply IH in Ho. destruct Ho as [Ho|Ho]; auto.
      apply in_app_or in Ho. destruct Ho as [Ho|[<-|[]]]; auto.
Qed.

Lemma live_open_orders current items : forall orders o,
  In o (fold_left (live_open_body x current) items orders) ->
  In o orders \/ (mem (o_symbol o) current = false
                  /\ exists tg, In (o_symbol o, tg) items
                                /\ o_side o = t_side tg).
Proof.
  induction items as [|[s tg] items IH]; intros orders o Ho.
  - now left.
  - cbn [fold_left] in Ho. apply IH in Ho.
    destruct Ho as [Ho|(Hm & tg' & Hi & Hs)].
    2:{ right. split; auto. exists tg'. split; auto. now right. }
    unfold live_open_body in Ho.
    destruct (mem s current) eqn:Hs; auto.
    destruct (leverage_ok x s); simpl in Ho; auto.
    destruct (lot_size x s) as [[min_qty qty_step]|]; auto.
    destruct (Qeq_bool (mark_price x s) 0); auto.
    destruct (Qeq_bool qty_step 0); auto.
    apply in_app_or in Ho. destruct Ho as [Ho|[<-|[]]]; auto.
    right. simpl. split; auto. exists tg. split; simpl; auto.
Qed.
End LiveFacts.

(** ** Claims on the reconciliation ledger *)

Section LedgerClaims.
Import Dict DictFacts.
Local Open Scope Q_scope.
Local Notation "b @ s" := (get s (paper_positions b)) (at level 20).

Lemma close_loop_noop price targets ks : forall st,
  (forall k, In k ks -> mem k targets = true) ->
  fold_left (close_body price targets) ks st = st.
Proof.
  induction ks as [|k ks IH]; intros [b lg] Hall; simpl; auto.
  rewrite (Hall k) by now left.
  apply IH. intros k' Hk'. apply Hall. now right.
Qed.

Lemma adjust_all_hold price items : forall b lg,
  (forall s tg, In (s, tg) items ->
     Qpositive (price s) = true
     /\ exists pos, b @ s = Some pos /\ p_side pos = t_side tg) ->
  exists ev,
    fold_left (adjust_body price) items (b, lg) = (b, lg ++ ev)
    /\ Forall2 (held b) items ev.
Proof.
  induction items as [|[k tg] items IH]; intros b lg Hall.
  - exists []. rewrite app_nil_r. split; [reflexivity | constructor].
  - destruct (Hall k tg) as (Hpx & pos & Hg & Hs); [now left|].
    destruct (IH b (lg ++ [HOLD (t_side tg) k (p_size pos) (p_entry pos)]))
      as (ev & Hf & Hh).
    { intros s tg' Hi. apply Hall. now right. }
    exists (HOLD (t_side tg) k (p_size pos) (p_entry pos) :: ev).
    split.
    + cbn [fold_left]. unfold adjust_body at 2.
      rewrite Qle_bool_positive, Hpx, Hg. simpl negb. cbv iota.
      apply side_eqb_eq in Hs. rewrite Hs, Hf.
      now rewrite <- app_assoc.
    + constructor; auto. exists pos. simpl. auto.
Qed.

(** After a pass with every targeted price available the ledger holds
    exactly the targeted symbols, each on its target side. *)
Lemma pass_reaches_targets price targets b b' lg :
  wf targets ->
  (forall s, In s (keys targets) -> 0 < price s) ->
  execute_paper_trade price targets b = (b', lg) ->
  (forall k, In k (keys (paper_positions b')) -> mem k targets = true)
  /\ (forall s tg, In (s, tg) targets ->
        Qpositive (price s) = true
        /\ exists pos, b' @ s = Some pos /\ p_side pos = t_side tg).
Proof.
  intros Hwf Hpx He.
  destruct (pass_spec price targets b b' lg Hwf He)
    as (_ & _ & Hgone & _ & Hout).
  split.
  - intros k Hk. destruct (mem k targets) eqn:Hm; auto.
    apply Hgone in Hm. apply get_None in Hm. tauto.
  - intros s tg Hi.
    assert (Hp : Qpositive (price s) = true).
    { apply Qpositive_lt, Hpx. change s with (fst (s, tg)).
      now apply in_map. }
    split; auto.
    destruct (Hout s tg Hi) as [Hn _|_ _ Hg _|pos _ _ Hs Hg _|pos _ _ _ Hg _ _].
    + congruence.
    + eexists; split; [exact Hg | reflexivity].
    + eexists; split; [exact Hg | exact Hs].
    + eexists; split; [exact Hg | reflexivity].
Qed.

(** A pass keeps the keys of the ledger unique. *)
Lemma pass_keeps_wf price targets b :
  wf (paper_positions b) ->
  wf (paper_positions (fst (execute_paper_trade price targets b))).
Proof.
  intros Hwf. unfold execute_paper_trade, adjust_loop, close_loop.
  assert (Hc : forall ks st,
             wf (paper_positions (fst st)) ->
             wf (paper_positions
                   (fst (fold_left (close_body price targets) ks st)))).
  { induction ks as [|k ks IH]; intros [b0 lg0] H0; simpl; auto.
    apply IH. simpl in H0.
    destruct (mem k targets); auto.
    destruct (get k (paper_positions b0)); auto.
    destruct (Qpositive (price k)); simpl; now apply wf_del. }
  assert (Ha : forall (l : list (string * target)) st,
             wf (paper_positions (fst st)) ->
             wf (paper_positions
                   (fst (fold_left (adjust_body price) l st)))).
  { induction l as [|[k tg] l IH]; intros [b0 lg0] H0; auto.
    cbn [fold_left]. apply IH. simpl in H0. unfold adjust_body.
    destruct (Qle_bool (price k) 0); auto.
    destruct (get k (paper_positions b0)) as [pos|]; simpl.
    - destruct (side_eqb (p_side pos) (t_side tg)); simpl; auto.
      now apply wf_set.
    - now apply wf_set. }
  apply Ha, Hc. exact Hwf.
Qed.

(** A targeted symbol without a price is left alone: its position, if
    any, stays and no line is logged for it. *)
Lemma unavailable_target_untouched price targets b s tg :
  wf targets -> In (s, tg) targets -> ~ 0 < price s ->
  fst (execute_paper_trade price targets b) @ s = b @ s
  /\ forall a, In a (snd (execute_paper_trade price targets b)) ->
               symbol_of a <> s.
Proof.
  intros Hwf Hi Hpx.
  destruct (execute_paper_trade price targets b) as [b' lg] eqn:He.
  destruct (pass_spec price targets b b' lg Hwf He)
    as (_ & Hev & _ & _ & Hout).
  assert (Hn : Qpositive (price s) = false).
  { destruct (Qpositive (price s)) eqn:E; auto.
    apply Qpositive_lt in E. tauto. }
  simpl. split.
  - destruct (Hout s tg Hi); congruence.
  - intros a Ha Hs. destruct (Hev a Ha) as [Hc|Hc].
    + destruct Hc. simpl in Hs. congruence.
    + apply adjust_event_priced in Hc. congruence.
Qed.

(** The first loop removes every untargeted symbol, priced or not. *)
Lemma untargeted_always_removed price targets b s :
  wf targets -> mem s targets = false ->
  fst (execute_paper_trade price targets b) @ s = None.
Proof.
  intros Hwf Hm.
  destruct (execute_paper_trade price targets b) as [b' lg] eqn:He.
  destruct (pass_spec price targets b b' lg Hwf He) as (_ & _ & Hgone & _).
  now apply Hgone.
Qed.
End LedgerClaims.

Section LedgerTheorems.
Import Dict DictFacts.
Local Open Scope Q_scope.

(** C1 (code evaluated at the failing input).  The ledger holds a short
    of 10 SYM entered at 5; the new targets hold only BTCUSDT, and the
    price of SYM is unavailable.  The first loop books nothing for SYM,
    yet still deletes its position: the position does not survive the
    pass. *)
Theorem unavailable_untargeted_position_is_dropped :
  short_10_at_5 = mkBot [("SYM", mkPosition Sell 10 5)] 0
  /\ only_btc_price "SYM" = 0
  /\ mem "SYM" only_btc_target = false
  /\ execute_paper_trade only_btc_price only_btc_target short_10_at_5
     = (mkBot [("BTCUSDT", mkPosition Buy (1000 / 50000) 50000)] 0,
        [OPEN Buy "BTCUSDT" (1000 / 50000) 50000 1000]).
Proof. repeat split. Qed.

(** C5.  In a reconciliation pass of the paper ledger the realized-PnL
    accumulator ends as its old value plus the amounts of the CLOSE and
    REVERSE lines, added in order, and is changed in no other way; each
    such amount is [(e - p) * s] for a short and [(p - e) * s] for a long,
    for the position (entry [e], size [s]) the ledger held for that
    symbol and its available price [p > 0]; a held position that is not
    targeted and has an available price books that amount and is
    removed, and a held position targeted on the opposite side with an
    available price books it as well. *)
Theorem realized_pnl_formula
    (price : string -> Q) (targets : Dict.t target) (b : bot) :
  wf targets ->
  let b' := fst (execute_paper_trade price targets b) in
  let lg := snd (execute_paper_trade price targets b) in
  paper_pnl b' = fold_left Qplus (amounts lg) (paper_pnl b)
  /\ (forall a amount, In a lg -> In amount (booked a) ->
        exists pos,
          get (symbol_of a) (paper_positions b) = Some pos
          /\ 0 < price (symbol_of a)
          /\ amount =
             match p_side pos with
             | Sell => (p_entry pos - price (symbol_of a)) * p_size pos
             | Buy => (price (symbol_of a) - p_entry pos) * p_size pos
             end)
  /\ (forall s pos,
        get s (paper_positions b) = Some pos -> 0 < price s ->
        mem s targets = false ->
        get s (paper_positions b') = None
        /\ In (CLOSE s match p_side pos with
                       | Sell => (p_entry pos - price s) * p_size pos
                       | Buy => (price s - p_entry pos) * p_size pos
                       end) lg)
  /\ (forall s pos tg,
        get s (paper_positions b) = Some pos -> 0 < price s ->
        In (s, tg) targets -> p_side pos <> t_side tg ->
        In (REVERSE s match p_side pos with
                         | Sell => (p_entry pos - price s) * p_size pos
                         | Buy => (price s - p_entry pos) * p_size pos
                         end) lg).
Proof.
  intros Hwf.
  destruct (execute_paper_trade price targets b) as [b' lg] eqn:He.
  destruct (pass_spec price targets b b' lg Hwf He)
    as (Hp & Hev & Hgone & Hclose & Hout).
  cbn [fst snd]. split; [exact Hp|]. split; [|split].
  - intros a amount Ha Hb. destruct (Hev a Ha) as [Hc|Hc].
    + destruct Hc as [s pos _ _ Hg Hpx]. simpl in Hb |- *.
      destruct Hb as [<-|[]]. exists pos.
      apply Qpositive_lt in Hpx. auto.
    + destruct Hc as [s tg pos _ Hpx Hg _|s tg pos _ Hpx Hg _|s tg _ _ _];
        simpl in Hb |- *; try tauto.
      destruct Hb as [<-|[]]. exists pos.
      apply Qpositive_lt in Hpx. auto.
  - intros s pos Hg Hpx Hm. split; [now apply Hgone|].
    apply Qpositive_lt in Hpx. exact (Hclose s pos Hm Hg Hpx).
  - intros s pos tg Hg Hpx Hi Hs.
    destruct (Hout s tg Hi)
      as [Hn _|_ Hg' _ _|pos' _ Hg' Hs' _ _|pos' _ Hg' _ _ Hr _].
    + apply Qpositive_lt in Hpx. congruence.
    + congruence.
    + congruence.
    + assert (pos' = pos) by congruence. subst pos'. exact Hr.
Qed.

(** Scenario D: the short of 10 entered at 5 is closed at 6. *)
Lemma realized_pnl_formula_witness :
  wf no_target
  /\ get "SYM" (paper_positions
                  (fst (execute_paper_trade (sym_price 6) no_target
                          short_10_at_5))) = None
  /\ In (CLOSE "SYM" ((5 - 6) * 10))
        (snd (execute_paper_trade (sym_price 6) no_target short_10_at_5)).
Proof.
  assert (Hwf : wf no_target) by constructor.
  split; [exact Hwf|].
  apply (proj1 (proj2 (proj2
           (realized_pnl_formula (sym_price 6) no_target short_10_at_5 Hwf)))
           "SYM" (mkPosition Sell 10 5)).
  - reflexivity.
  - reflexivity.
  - reflexivity.
Defined.

(** Scenario D evaluated: the accumulator moves from 0 to -10 and the
    position is gone. *)
Example scenario_D :
  execute_paper_trade (sym_price 6) no_target short_10_at_5
  = (mkBot [] (0 + (5 - 6) * 10), [CLOSE "SYM" ((5 - 6) * 10)])
  /\ 0 + (5 - 6) * 10 == -10.
Proof. split; reflexivity. Qed.

(** C6.  For every ledger state, target allocation and prices that are
    available (positive) for every targeted symbol: a second
    reconciliation pass with the same targets and prices leaves the
    ledger exactly as the first pass left it (every position with its
    side, size and entry price, and the realized PnL), and logs one HOLD
    line per targeted symbol, in order, and nothing else. *)
Theorem reconcile_idempotent
    (price : string -> Q) (targets : Dict.t target) (b : bot) :
  wf targets ->
  (forall s, In s (keys targets) -> 0 < price s) ->
  let b1 := fst (execute_paper_trade price targets b) in
  let again := execute_paper_trade price targets b1 in
  fst again = b1
  /\ Forall2 (held b1) (items targets) (snd again).
Proof.
  intros Hwf Hpx.
  destruct (execute_paper_trade price targets b) as [b1 lg] eqn:He.
  destruct (pass_reaches_targets price targets b b1 lg Hwf Hpx He)
    as (Hkeys & Hsides).
  cbn [fst snd]. unfold execute_paper_trade, close_loop, adjust_loop.
  rewrite close_loop_noop by exact Hkeys.
  destruct (adjust_all_hold price (items targets) b1 [] Hsides)
    as (ev & Hf & Hh).
  rewrite Hf. simpl. auto.
Qed.

Lemma reconcile_idempotent_witness :
  wf sym_long_1000
  /\ fst (execute_paper_trade (sym_price 4) sym_long_1000
            (fst (execute_paper_trade (sym_price 4) sym_long_1000
                    short_10_at_5)))
     = fst (execute_paper_trade (sym_price 4) sym_long_1000 short_10_at_5).
Proof.
  assert (Hwf : wf sym_long_1000).
  { repeat constructor. simpl. tauto. }
  split; [exact Hwf|].
  apply (reconcile_idempotent (sym_price 4) sym_long_1000 short_10_at_5 Hwf).
  intros s [<-|[]]. reflexivity.
Defined.
End LedgerTheorems.

Section ReverseTheorems.
Import Dict DictFacts.
Local Open Scope Q_scope.

(** C2 (the claim fails on the live path).  The exchange reports a short
    of 10 SYM, the target for SYM is long 1000 and the price is 4: the
    live pass hands no order at all to the exchange, so the short is
    neither closed nor replaced by a long. *)
Lemma live_pass_does_not_reverse :
  open_positions holding_short_sym = Some [("SYM", mkLive Sell 10 50)]
  /\ get "SYM" sym_long_1000 = Some (mkTarget Buy 1000)
  /\ mark_price holding_short_sym "SYM" = 4
  /\ execute_live_trade holding_short_sym sym_long_1000 = [].
Proof. repeat split. Qed.

(** C2 (amended).  In a simulated pass, a targeted symbol whose held
    position has the side opposite to its target and whose price [p] is
    available ([p > 0]) is reversed: the PnL of the old position at [p]
    is logged in a REVERSE line (whose amount goes into the realized
    PnL), and the ledger then holds for it a position on the target side
    with entry [p] and size [target value / p].  In a live pass a
    targeted symbol that already has a position on the exchange receives
    no order, whatever the side of that position. *)
Theorem reverse_in_paper_skip_in_live :
  (forall (price : string -> Q) (targets : Dict.t target) (b : bot)
          (s : string) (tg : target) (pos : position),
      wf targets -> In (s, tg) targets ->
      get s (paper_positions b) = Some pos ->
      p_side pos <> t_side tg -> 0 < price s ->
      let b' := fst (execute_paper_trade price targets b) in
      let lg := snd (execute_paper_trade price targets b) in
      get s (paper_positions b')
      = Some (mkPosition (t_side tg) (t_value tg / price s) (price s))
      /\ In (REVERSE s match p_side pos with
                       | Sell => (p_entry pos - price s) * p_size pos
                       | Buy => (price s - p_entry pos) * p_size pos
                       end) lg
      /\ paper_pnl b' = fold_left Qplus (amounts lg) (paper_pnl b))
  /\ (forall (x : exchange) (targets : Dict.t target)
             (rows : list (string * live_position)) (s : string),
      open_positions x = Some rows ->
      mem s targets = true ->
      mem s (current_positions rows) = true ->
      forall o, In o (execute_live_trade x targets) -> o_symbol o <> s).
Proof.
  split.
  - intros price targets b s tg pos Hwf Hi Hg Hs Hpx.
    destruct (execute_paper_trade price targets b) as [b' lg] eqn:He.
    destruct (pass_spec price targets b b' lg Hwf He)
      as (Hp & _ & _ & _ & Hout).
    cbn [fst snd].
    destruct (Hout s tg Hi)
      as [Hn _|_ Hg' _ _|pos' _ Hg' Hs' _ _|pos' _ Hg' _ Hnew Hr _].
    + apply Qpositive_lt in Hpx. congruence.
    + congruence.
    + congruence.
    + assert (pos' = pos) by congruence. subst pos'. auto.
  - intros x targets rows s Hrows Ht Hc o Ho Heq.
    unfold execute_live_trade in Ho. rewrite Hrows in Ho.
    apply live_open_orders in Ho. destruct Ho as [Ho|[Ho _]].
    + apply live_close_orders in Ho. destruct Ho as [[]|Ho]. congruence.
    + congruence.
Qed.

(** Scenario C: the short of 10 entered at 5 meets a long target at
    price 4. *)
Lemma reverse_in_paper_skip_in_live_witness :
  wf sym_long_1000
  /\ get "SYM"
       (paper_positions
          (fst (execute_paper_trade (sym_price 4) sym_long_1000
                  short_10_at_5)))
     = Some (mkPosition Buy (1000 / 4) 4)
  /\ In (REVERSE "SYM" ((5 - 4) * 10))
        (snd (execute_paper_trade (sym_price 4) sym_long_1000
                short_10_at_5)).
Proof.
  assert (Hwf : wf sym_long_1000).
  { repeat constructor. simpl. tauto. }
  split; [exact Hwf|].
  destruct (proj1 reverse_in_paper_skip_in_live
              (sym_price 4) sym_long_1000 short_10_at_5
              "SYM" (mkTarget Buy 1000) (mkPosition Sell 10 5))
  as (H1 & H2 & _).
  - exact Hwf.
  - now left.
  - reflexivity.
  - discriminate.
  - reflexivity.
  - split; [exact H1 | exact H2].
Defined.

(** Scenario C evaluated: +10 is realized and the long replaces the
    short. *)
Example scenario_C :
  execute_paper_trade (sym_price 4) sym_long_1000 short_10_at_5
  = (mkBot [("SYM", mkPosition Buy (1000 / 4) 4)] (0 + (5 - 4) * 10),
     [REVERSE "SYM" ((5 - 4) * 10); OPEN Buy "SYM" (1000 / 4) 4 1000])
  /\ 0 + (5 - 4) * 10 == 10.
Proof. split; reflexivity. Qed.
End ReverseTheorems.

(** ** List facts *)

Section ListFacts.
Context {A : Type}.

Lemma In_firstn (n : nat) (l : list A) (a : A) :
  In a (firstn n l) -> In a l.
Proof.
  intros H. rewrite <- (firstn_skipn n l). apply in_or_app. now left.
Qed.

Lemma filter_none (f : A -> bool) (l : list A) :
  (forall a, In a l -> f a = false) -> filter f l = [].
Proof.
  induction l as [|a l IH]; simpl; intros H; auto.
  rewrite (H a) by auto. apply IH. auto.
Qed.

Lemma filter_all (f : A -> bool) (l : list A) :
  (forall a, In a l -> f a = true) -> filter f l = l.
Proof.
  induction l as [|a l IH]; simpl; intros H; auto.
  rewrite (H a) by auto. f_equal. apply IH. auto.
Qed.

Lemma NoDup_firstn (n : nat) (l : list A) :
  NoDup l -> NoDup (firstn n l).
Proof.
  intros H. rewrite <- (firstn_skipn n l) in H.
  eapply NoDup_app_remove_r, H.
Qed.
End ListFacts.

(** ** Sorting by volatility *)

Section SortFacts.
Local Open Scope Q_scope.
Implicit Types (e : string * Q) (l : list (string * Q)).

Lemma insert_desc_In x l e : In e (insert_desc x l) <-> e = x \/ In e l.
Proof.
  induction l as [|y l IH]; simpl.
  - intuition.
  - destruct (Qle_bool (snd y) (snd x)); simpl; [intuition|].
    rewrite IH. intuition.
Qed.

Lemma sort_desc_In l e : In e (sort_desc l) <-> In e l.
Proof.
  induction l as [|y l IH]; simpl; [tauto|].
  rewrite insert_desc_In, IH. intuition.
Qed.

Lemma sort_desc_length l : List.length (sort_desc l) = List.length l.
Proof.
  assert (Hi : forall x l', List.length (insert_desc x l')
                            = S (List.length l')).
  { intros x l'. induction l' as [|y l' IH]; simpl; auto.
    destruct (Qle_bool (snd y) (snd x)); simpl; auto. }
  induction l as [|y l IH]; simpl; auto. now rewrite Hi, IH.
Qed.

Lemma insert_desc_sorted x l :
  StronglySorted vol_ge l -> StronglySorted vol_ge (insert_desc x l).
Proof.
  induction 1 as [|y l Hs IH Hall]; simpl.
  - constructor; constructor.
  - destruct (Qle_bool (snd y) (snd x)) eqn:E.
    + apply Qle_bool_iff in E. constructor.
      * now constructor.
      * constructor; [exact E|].
        rewrite Forall_forall in Hall |- *. intros z Hz.
        unfold vol_ge in *. eapply Qle_trans; [apply Hall, Hz | exact E].
    + constructor; auto.
      rewrite Forall_forall in Hall |- *. intros z Hz.
      apply insert_desc_In in Hz. destruct Hz as [->|Hz]; auto.
      unfold vol_ge. apply Qlt_le_weak, Qnot_le_lt. intros Hle.
      apply Qle_bool_iff in Hle. congruence.
Qed.

Lemma sort_desc_sorted l : StronglySorted vol_ge (sort_desc l).
Proof.
  induction l; simpl; [constructor | now apply insert_desc_sorted].
Qed.

Lemma insert_desc_same_vol v x l :
  filter (same_vol v) (insert_desc x l) = filter (same_vol v) (x :: l).
Proof.
  induction l as [|y l IH]; simpl; auto.
  destruct (Qle_bool (snd y) (snd x)) eqn:E; simpl; auto.
  rewrite IH. simpl.
  destruct (same_vol v x) eqn:Ex; auto.
  destruct (same_vol v y) eqn:Ey; auto.
  (* [y] and [x] both have volatility [v], so [y <= x] *)
  unfold same_vol in Ex, Ey.
  apply Qeq_bool_iff in Ex. apply Qeq_bool_iff in Ey.
  assert (Hle : snd y <= snd x) by (rewrite Ex, Ey; apply Qle_refl).
  apply Qle_bool_iff in Hle. congruence.
Qed.

(** Stability: the entries of one volatility keep their order. *)
Lemma sort_desc_stable v l :
  filter (same_vol v) (sort_desc l) = filter (same_vol v) l.
Proof.
  induction l as [|y l IH]; simpl; auto.
  rewrite insert_desc_same_vol. simpl. now rewrite IH.
Qed.

Lemma same_vol_refl e : same_vol (snd e) e = true.
Proof. unfold same_vol. apply Qeq_bool_iff. reflexivity. Qed.

(** A list has one stable descending arrangement only, so [sort_desc] is
    what any stable sort returns. *)
Lemma stable_sort_unique l1 : forall l2,
  StronglySorted vol_ge l1 -> StronglySorted vol_ge l2 ->
  (forall v, filter (same_vol v) l1 = filter (same_vol v) l2) ->
  l1 = l2.
Proof.
  induction l1 as [|x l1 IH]; intros [|y l2] H1 H2 Hf.
  - reflexivity.
  - specialize (Hf (snd y)). simpl in Hf.
    rewrite same_vol_refl in Hf. discriminate.
  - specialize (Hf (snd x)). simpl in Hf.
    rewrite same_vol_refl in Hf. discriminate.
  - apply StronglySorted_inv in H1. destruct H1 as [H1 Hx].
    apply StronglySorted_inv in H2. destruct H2 as [H2 Hy].
    rewrite Forall_forall in Hx, Hy.
    assert (Hxy : x = y).
    { pose proof (Hf (snd x)) as Fx. pose proof (Hf (snd y)) as Fy.
      simpl in Fx, Fy. rewrite same_vol_refl in Fx, Fy.
      destruct (same_vol (snd x) y) eqn:Exy; [congruence|].
      destruct (same_vol (snd y) x) eqn:Eyx; [congruence|].
      assert (Ix : In x l2).
      { eapply proj1. apply filter_In. rewrite <- Fx. now left. }
      assert (Iy : In y l1).
      { eapply proj1. apply filter_In. rewrite Fy. now left. }
      apply Hy in Ix. apply Hx in Iy. unfold vol_ge in Ix, Iy.
      assert (E : snd y == snd x) by now apply Qle_antisym.
      apply Qeq_bool_iff in E. unfold same_vol in Exy. congruence. }
    subst y. f_equal. apply IH; auto.
    intros v. specialize (Hf v). simpl in Hf.
    destruct (same_vol v x); congruence.
Qed.

Lemma sort_desc_is_the_stable_sort l l' :
  StronglySorted vol_ge l' ->
  (forall v, filter (same_vol v) l' = filter (same_vol v) l) ->
  l' = sort_desc l.
Proof.
  intros Hs Hf. apply stable_sort_unique; auto using sort_desc_sorted.
  intros v. now rewrite sort_desc_stable.
Qed.

Lemma In_slice_to {A : Type} (n : Z) (l : list A) (a : A) :
  In a (slice_to n l) -> In a l.
Proof. unfold slice_to. destruct (0 <=? n)%Z; apply In_firstn. Qed.

Lemma firstn_sorted n l :
  StronglySorted vol_ge l -> StronglySorted vol_ge (firstn n l).
Proof.
  intros H. revert n. induction H as [|y l Hs IH Hall]; intros [|n]; simpl;
    try constructor; auto.
  rewrite Forall_forall in Hall |- *. intros z Hz.
  apply Hall. eapply In_firstn, Hz.
Qed.

Lemma slice_to_sorted n l :
  StronglySorted vol_ge l -> StronglySorted vol_ge (slice_to n l).
Proof. unfold slice_to. destruct (0 <=? n)%Z; apply firstn_sorted. Qed.

Lemma slice_to_prefix {A : Type} (n : Z) (l : list A) :
  exists rest, l = slice_to n l ++ rest.
Proof.
  unfold slice_to. destruct (0 <=? n)%Z; eexists; symmetry;
    apply firstn_skipn.
Qed.

Lemma slice_to_short {A : Type} (n : Z) (l : list A) :
  (Z.of_nat (List.length l) <= n)%Z -> slice_to n l = l.
Proof.
  intros H. unfold slice_to.
  destruct (0 <=? n)%Z eqn:E; [|apply Z.leb_gt in E; lia].
  apply firstn_all2. lia.
Qed.

Lemma slice_to_long {A : Type} (n : Z) (l : list A) :
  (0 <= n <= Z.of_nat (List.length l))%Z ->
  slice_to n l = firstn (Z.to_nat n) l
  /\ List.length (slice_to n l) = Z.to_nat n.
Proof.
  intros H. unfold slice_to.
  destruct (0 <=? n)%Z eqn:E; [|apply Z.leb_gt in E; lia].
  split; auto. rewrite length_firstn. lia.
Qed.
End SortFacts.

(** ** The ranker and the allocation calculator *)

Section StrategyFacts.
Variable CAPITAL : Q.
Variables N_SHORTS LOOKBACK : Z.
Variable tail_log_return_std : Z -> list Q -> option Q.
Import Dict DictFacts.
Local Open Scope Q_scope.

Local Abbreviation volatility :=
  (calculate_volatility LOOKBACK tail_log_return_std).
Local Abbreviation step := (rank_body LOOKBACK tail_log_return_std).
Local Abbreviation scored_in := (scored LOOKBACK tail_log_return_std).
Local Abbreviation ranked_in := (ranked LOOKBACK tail_log_return_std).
Local Abbreviation top_of :=
  (get_top_volatile_alts N_SHORTS LOOKBACK tail_log_return_std).
Local Abbreviation allocate := (calculate_target_positions CAPITAL N_SHORTS).

(** Where an entry of [volatilities] comes from. *)
Lemma rank_fold_In x syms : forall acc e,
  In e (fold_left (step x) syms acc) ->
  In e acc
  \/ (In (fst e) syms /\ fst e <> "BTCUSDT"
      /\ snd e = volatility (closes x (fst e) (LOOKBACK + 5)%Z)
      /\ Qpositive (snd e) = true).
Proof.
  induction syms as [|s syms IH]; intros acc e He; simpl in He.
  - now left.
  - apply IH in He. destruct He as [He|He].
    2:{ right. simpl. tauto. }
    unfold rank_body in He.
    destruct (String.eqb_spec s "BTCUSDT") as [->|Hne]; auto.
    destruct (closes x s (LOOKBACK + 5)%Z) as [|c df] eqn:Hdf; auto.
    destruct (Qpositive (volatility (c :: df))) eqn:Hv; auto.
    apply in_app_or in He. destruct He as [He|[<-|[]]]; auto.
    right. simpl. rewrite Hdf. auto.
Qed.

Lemma rank_fold_keys x syms : forall acc,
  NoDup syms -> NoDup (map fst acc) ->
  (forall s, In s syms -> ~ In s (map fst acc)) ->
  NoDup (map fst (fold_left (step x) syms acc)).
Proof.
  induction syms as [|s syms IH]; intros acc Hs Ha Hd; simpl; auto.
  inversion Hs as [|? ? Hn Hs']; subst.
  apply IH; auto.
  - unfold rank_body.
    destruct (String.eqb s "BTCUSDT"); auto.
    destruct (closes x s (LOOKBACK + 5)%Z); auto.
    destruct (Qpositive _); auto.
    rewrite map_app. simpl.
    apply NoDup_rev in Ha. rewrite <- (rev_involutive (map fst acc ++ [s])).
    apply NoDup_rev. rewrite rev_app_distr. simpl.
    constructor; auto. rewrite <- in_rev. apply Hd. now left.
  - intros s' Hs'' Hin. unfold rank_body in Hin.
    assert (Hold : ~ In s' (map fst acc)) by (apply Hd; now right).
    destruct (String.eqb s "BTCUSDT"); auto.
    destruct (closes x s (LOOKBACK + 5)%Z); auto.
    destruct (Qpositive _); auto.
    rewrite map_app in Hin. apply in_app_or in Hin.
    destruct Hin as [Hin|[<-|[]]]; auto.
Qed.

Lemma rank_fold_ext x x' syms : forall acc,
  (forall s, In s syms ->
     closes x' s (LOOKBACK + 5)%Z = closes x s (LOOKBACK + 5)%Z) ->
  fold_left (step x') syms acc = fold_left (step x) syms acc.
Proof.
  induction syms as [|s syms IH]; intros acc Hc; simpl; auto.
  rewrite IH by (intros; apply Hc; now right).
  unfold rank_body. now rewrite (Hc s) by now left.
Qed.

Lemma insert_desc_perm e l : Permutation (insert_desc e l) (e :: l).
Proof.
  induction l as [|y l IH]; simpl; auto.
  destruct (Qle_bool (snd y) (snd e)); auto.
  rewrite IH. apply perm_swap.
Qed.

Lemma sort_desc_perm l : Permutation (sort_desc l) l.
Proof.
  induction l as [|y l IH]; simpl; auto.
  rewrite insert_desc_perm. now constructor.
Qed.

(** The ranking never holds the reference asset, and holds each symbol
    once when the exchange lists each instrument once. *)
Lemma ranked_no_reference x : ~ In "BTCUSDT" (map fst (ranked_in x)).
Proof.
  intros H. apply in_map_iff in H. destruct H as (e & He & Hi).
  unfold ranked in Hi. rewrite sort_desc_In in Hi.
  apply rank_fold_In in Hi.
  destruct Hi as [[]|(_ & Hne & _)]. congruence.
Qed.

Lemma ranked_distinct x :
  NoDup (instruments x) -> NoDup (map fst (ranked_in x)).
Proof.
  intros H.
  apply (Permutation_NoDup (l := map fst (scored_in x))).
  - apply Permutation_map. symmetry. apply sort_desc_perm.
  - apply rank_fold_keys; auto; constructor.
Qed.

(** The allocation written for distinct alt symbols. *)
Lemma allocate_fresh (top : list (string * Q)) :
  N_SHORTS <> 0%Z ->
  NoDup (map fst top) -> ~ In "BTCUSDT" (map fst top) ->
  allocate top
  = Some (("BTCUSDT", mkTarget Buy CAPITAL)
          :: map (fun e => (fst e, mkTarget Sell (CAPITAL / inject_Z N_SHORTS)))
               top).
Proof.
  intros Hn Hnd Hbtc. unfold calculate_target_positions.
  destruct (Z.eqb_spec N_SHORTS 0) as [?|_]; [contradiction|].
  f_equal.
  rewrite (fold_set_fresh
             (fun _ => mkTarget Sell (CAPITAL / inject_Z N_SHORTS))); auto.
  intros k Hk [<-|[]]. auto.
Qed.

Lemma count_allocation (top : list (string * Q)) (short : Q) :
  let targets : Dict.t target :=
    ("BTCUSDT", mkTarget Buy CAPITAL)
    :: map (fun e => (fst e, mkTarget Sell short)) top in
  count_side Buy targets = 1%nat
  /\ count_side Sell targets = List.length top.
Proof.
  unfold count_side, items. simpl. split.
  - rewrite filter_none; auto.
    intros a Ha. apply in_map_iff in Ha. now destruct Ha as (e & <- & _).
  - rewrite filter_all; [apply length_map|].
    intros a Ha. apply in_map_iff in Ha. now destruct Ha as (e & <- & _).
Qed.

(** C3.  For every ranked sequence of distinct alt symbols (none of them
    the reference asset, as the ranker emits them) with at least
    [N_SHORTS > 0] entries, the allocation computed from its first
    [N_SHORTS] entries ([volatilities[:N_SHORTS]] handed to
    [calculate_target_positions]) is: BTCUSDT long with notional
    [CAPITAL], followed by exactly those first [N_SHORTS] symbols, each
    short with notional [CAPITAL / N_SHORTS]; so it has exactly one Long
    entry and exactly [N_SHORTS] Short entries, under distinct keys.  In
    particular this is the allocation [run_once] computes from the
    ranker's output whenever the exchange lists each instrument once and
    at least [N_SHORTS] of them are ranked. *)
Theorem targets_one_long_n_shorts :
  (forall ranked_alts : list (string * Q),
      (0 < N_SHORTS <= Z.of_nat (List.length ranked_alts))%Z ->
      NoDup (map fst ranked_alts) ->
      ~ In "BTCUSDT" (map fst ranked_alts) ->
      exists targets,
        allocate (slice_to N_SHORTS ranked_alts) = Some targets
        /\ items targets
           = ("BTCUSDT", mkTarget Buy CAPITAL)
             :: map (fun e =>
                       (fst e, mkTarget Sell (CAPITAL / inject_Z N_SHORTS)))
                  (firstn (Z.to_nat N_SHORTS) ranked_alts)
        /\ count_side Buy targets = 1%nat
        /\ Z.of_nat (count_side Sell targets) = N_SHORTS
        /\ wf targets)
  /\ (forall x : exchange,
      NoDup (instruments x) ->
      (0 < N_SHORTS <= Z.of_nat (List.length (ranked_in x)))%Z ->
      exists targets,
        allocate (top_of x) = Some targets
        /\ items targets
           = ("BTCUSDT", mkTarget Buy CAPITAL)
             :: map (fun e =>
                       (fst e, mkTarget Sell (CAPITAL / inject_Z N_SHORTS)))
                  (firstn (Z.to_nat N_SHORTS) (ranked_in x))
        /\ count_side Buy targets = 1%nat
        /\ Z.of_nat (count_side Sell targets) = N_SHORTS).
Proof.
  assert (Hgen : forall ranked_alts : list (string * Q),
             (0 < N_SHORTS <= Z.of_nat (List.length ranked_alts))%Z ->
             NoDup (map fst ranked_alts) ->
             ~ In "BTCUSDT" (map fst ranked_alts) ->
             exists targets,
               allocate (slice_to N_SHORTS ranked_alts) = Some targets
               /\ items targets
                  = ("BTCUSDT", mkTarget Buy CAPITAL)
                    :: map (fun e =>
                              (fst e,
                               mkTarget Sell (CAPITAL / inject_Z N_SHORTS)))
                         (firstn (Z.to_nat N_SHORTS) ranked_alts)
               /\ count_side Buy targets = 1%nat
               /\ Z.of_nat (count_side Sell targets) = N_SHORTS
               /\ wf targets).
  { intros ranked_alts Hn Hnd Hbtc.
    destruct (slice_to_long N_SHORTS ranked_alts) as [Hsl Hlen]; [lia|].
    rewrite Hsl in *.
    set (top := firstn (Z.to_nat N_SHORTS) ranked_alts) in *.
    assert (Hin : forall k, In k (map fst top) -> In k (map fst ranked_alts)).
    { intros k Hk. unfold top in Hk. rewrite <- firstn_map in Hk.
      eapply In_firstn, Hk. }
    assert (Hndt : NoDup (map fst top)).
    { unfold top. rewrite <- firstn_map. now apply NoDup_firstn. }
    rewrite allocate_fresh by (auto; lia).
    eexists. split; [reflexivity|]. split; [reflexivity|].
    destruct (count_allocation top (CAPITAL / inject_Z N_SHORTS))
      as [Hb Hs].
    split; [exact Hb|]. split; [rewrite Hs, Hlen; lia|].
    unfold wf, keys. simpl. rewrite map_map. simpl.
    constructor; auto. }
  split; [exact Hgen|].
  intros x Hnd Hn.
  destruct (Hgen (ranked_in x) Hn (ranked_distinct x Hnd)
              (ranked_no_reference x)) as (t & Ht & Hi & Hb & Hs & _).
  exists t. auto.
Qed.

(** C7.  A candle series with fewer than [LOOKBACK] candles gets the
    volatility [0], the value the ranker does not rank (its test
    [vol > 0] fails), whatever the statistic would be; and a symbol
    whose fetched series is that short appears neither in the ranked
    sequence nor in the ranker's output. *)
Theorem short_series_unrankable :
  (forall df : list Q,
      (Z.of_nat (List.length df) < LOOKBACK)%Z ->
      volatility df = 0 /\ Qpositive (volatility df) = false)
  /\ (forall (x : exchange) (symbol : string),
      (Z.of_nat (List.length (closes x symbol (LOOKBACK + 5)%Z))
       < LOOKBACK)%Z ->
      ~ In symbol (map fst (ranked_in x))
      /\ ~ In symbol (map fst (top_of x))).
Proof.
  assert (Hvol : forall df : list Q,
             (Z.of_nat (List.length df) < LOOKBACK)%Z -> volatility df = 0).
  { intros df Hlen. unfold calculate_volatility.
    apply Z.ltb_lt in Hlen. now rewrite Hlen. }
  split.
  - intros df Hlen. rewrite (Hvol df Hlen). split; reflexivity.
  - intros x symbol Hlen.
    assert (Hr : ~ In symbol (map fst (ranked_in x))).
    { intros H. apply in_map_iff in H. destruct H as (e & <- & Hi).
      unfold ranked in Hi. rewrite sort_desc_In in Hi.
      apply rank_fold_In in Hi.
      destruct Hi as [[]|(_ & _ & Hv & Hp)].
      rewrite Hv, (Hvol _ Hlen) in Hp. discriminate. }
    split; auto.
    intros H. apply Hr. apply in_map_iff in H.
    destruct H as (e & <- & Hi). apply in_map.
    eapply In_slice_to, Hi.
Qed.

(** C9.  The ranker's output is sorted by volatility, highest first;
    for every volatility value the entries of the output that have it
    stand in the order in which the loop scored them (they are a prefix
    of the scored entries that have it); and two exchanges that list the
    same instruments and return the same candles for each of them give
    the same output. *)
Theorem ranking_sorted_stable_deterministic (x : exchange) :
  StronglySorted (fun a b => snd b <= snd a) (top_of x)
  /\ (forall v, exists rest,
        filter (fun e => Qeq_bool (snd e) v) (scored_in x)
        = filter (fun e => Qeq_bool (snd e) v) (top_of x) ++ rest)
  /\ (forall x' : exchange,
        instruments x' = instruments x ->
        (forall s, In s (instruments x) ->
           closes x' s (LOOKBACK + 5)%Z = closes x s (LOOKBACK + 5)%Z) ->
        top_of x' = top_of x).
Proof.
  split; [|split].
  - apply slice_to_sorted, sort_desc_sorted.
  - intros v. change (fun e : string * Q => Qeq_bool (snd e) v)
      with (same_vol v).
    destruct (slice_to_prefix N_SHORTS (ranked_in x)) as [rest Hrest].
    exists (filter (same_vol v) rest).
    rewrite <- filter_app.
    unfold get_top_volatile_alts. rewrite <- Hrest.
    unfold ranked. now rewrite sort_desc_stable.
  - intros x' Hi Hc.
    unfold get_top_volatile_alts, ranked, scored. rewrite Hi.
    now rewrite (rank_fold_ext x x').
Qed.

(** C10.  The ranker's output (and the whole ranked sequence) never
    holds BTCUSDT.  Were BTCUSDT among the entries handed to
    [calculate_target_positions] (with [N_SHORTS <> 0]), the short
    written for it would replace the long under the same key: the key
    BTCUSDT ends short with notional [CAPITAL / N_SHORTS], every entry of
    the allocation is short and none is long. *)
Theorem reference_excluded_or_overwritten :
  (forall x : exchange,
      ~ In "BTCUSDT" (map fst (top_of x))
      /\ ~ In "BTCUSDT" (map fst (ranked_in x)))
  /\ (forall top_volatile : list (string * Q),
      N_SHORTS <> 0%Z ->
      In "BTCUSDT" (map fst top_volatile) ->
      exists targets,
        allocate top_volatile = Some targets
        /\ get "BTCUSDT" targets
           = Some (mkTarget Sell (CAPITAL / inject_Z N_SHORTS))
        /\ (forall s tg, In (s, tg) (items targets) -> t_side tg = Sell)
        /\ count_side Buy targets = 0%nat).
Proof.
  split.
  - intros x. split; [|apply ranked_no_reference].
    intros H. apply (ranked_no_reference x).
    apply in_map_iff in H. destruct H as (e & He & Hi).
    rewrite <- He. apply in_map. eapply In_slice_to, Hi.
  - intros top Hn Hin. unfold calculate_target_positions.
    destruct (Z.eqb_spec N_SHORTS 0) as [?|_]; [contradiction|].
    eexists. split; [reflexivity|].
    set (short := mkTarget Sell (CAPITAL / inject_Z N_SHORTS)).
    assert (Hall : forall s tg,
               In (s, tg)
                 (fold_left (fun t sv => set (fst sv) short t) top
                    (set "BTCUSDT" (mkTarget Buy CAPITAL) empty)) ->
               t_side tg = Sell).
    { apply (fold_set_overwrites short (fun w => t_side w = Sell)).
      - repeat constructor. simpl. tauto.
      - reflexivity.
      - intros s w [[= <- <-]|[]]. now right. }
    split; [|split].
    + now apply fold_set_get.
    + exact Hall.
    + unfold count_side, items. rewrite filter_none; auto.
      intros [s tg] Hi. simpl. now rewrite (Hall s tg Hi).
Qed.

Variable PAPER_TRADE : bool.

(** C4.  When the ranked sequence has fewer than [N_SHORTS] entries,
    [run_once] reports the insufficient universe and returns at once:
    no allocation is computed, no reconciliation runs (paper or live),
    and the ledger (open positions and realized PnL) is the one it was
    given. *)
Theorem insufficient_universe_skips_cycle (x : exchange) (b : bot) :
  (Z.of_nat (List.length (ranked_in x)) < N_SHORTS)%Z ->
  run_once CAPITAL N_SHORTS LOOKBACK PAPER_TRADE tail_log_return_std x b
  = (b, InsufficientUniverse (List.length (ranked_in x))).
Proof.
  intros Hlen. unfold run_once, get_top_volatile_alts.
  rewrite slice_to_short by lia.
  apply Z.ltb_lt in Hlen. now rewrite Hlen.
Qed.

End StrategyFacts.

(** ** The scheduler clock *)

Module ClockFacts.
Import Clock.
Local Open Scope Z_scope.

Lemma valid_spec (t : datetime) :
  valid t = true <->
  (1 <= year t <= MAXYEAR) /\ (1 <= month t <= 12)
  /\ (1 <= day t <= days_in_month (year t) (month t))
  /\ (0 <= hour t <= 23) /\ (0 <= minute t <= 59)
  /\ (0 <= second t <= 59) /\ (0 <= microsecond t <= 999999).
Proof.
  unfold valid. rewrite !andb_true_iff, !Z.leb_le. tauto.
Qed.

Lemma month_cases (m : Z) :
  1 <= m <= 12 ->
  m = 1 \/ m = 2 \/ m = 3 \/ m = 4 \/ m = 5 \/ m = 6 \/ m = 7 \/ m = 8
  \/ m = 9 \/ m = 10 \/ m = 11 \/ m = 12.
Proof. lia. Qed.

Lemma days_in_month_bounds (y m : Z) : 28 <= days_in_month y m <= 31.
Proof.
  unfold days_in_month.
  destruct (m =? 2); [destruct (is_leap y); lia|].
  destruct ((m =? 4) || (m =? 6) || (m =? 9) || (m =? 11)); lia.
Qed.

(** One more year is 365 days, 366 after a leap year. *)
Lemma days_before_next_year (y : Z) :
  days_before_year (y + 1)
  = days_before_year y + (if is_leap y then 366 else 365).
Proof.
  unfold days_before_year, is_leap.
  replace (y + 1 - 1) with y by lia.
  destruct (Z.eqb_spec (y mod 4) 0) as [H4|H4];
    destruct (Z.eqb_spec (y mod 100) 0) as [H100|H100];
    destruct (Z.eqb_spec (y mod 400) 0) as [H400|H400];
    cbn [andb orb negb];
    Z.div_mod_to_equations; lia.
Qed.

(** [next_day] is the day whose ordinal is one more, and is again a
    date. *)
Lemma next_day_spec (y m d y' m' d' : Z) :
  1 <= y <= MAXYEAR -> 1 <= m <= 12 -> 1 <= d <= days_in_month y m ->
  next_day y m d = Some (y', m', d') ->
  toordinal y' m' d' = toordinal y m d + 1
  /\ 1 <= y' <= MAXYEAR /\ 1 <= m' <= 12
  /\ 1 <= d' <= days_in_month y' m'.
Proof.
  intros Hy Hm Hd. unfold next_day.
  destruct (Z.ltb_spec d (days_in_month y m)) as [Hlt|Hge].
  { intros [= <- <- <-]. unfold toordinal. repeat split; lia. }
  assert (Hlast : d = days_in_month y m) by lia.
  pose proof (days_in_month_bounds y (m + 1)) as Hb1.
  pose proof (days_in_month_bounds (y + 1) 1) as Hb2.
  destruct (Z.ltb_spec m 12) as [Hm12|Hm12].
  { intros [= <- <- <-]. split; [|lia].
    unfold toordinal. f_equal. subst d.
    unfold days_before_month, days_in_month.
    destruct (month_cases m Hm)
      as [->|[->|[->|[->|[->|[->|[->|[->|[->|[->|[->| ->]]]]]]]]]]];
      cbn; destruct (is_leap y); lia. }
  destruct (Z.ltb_spec y MAXYEAR) as [Hy9|Hy9]; [|discriminate].
  intros [= <- <- <-]. split; [|lia].
  assert (m = 12) by lia. subst m d.
  unfold toordinal. rewrite days_before_next_year.
  unfold days_before_month, days_in_month. cbn.
  destruct (is_leap y), (is_leap (y + 1)); lia.
Qed.

Lemma next_day_defined (y m d : Z) :
  1 <= y <= MAXYEAR -> 1 <= m <= 12 -> 1 <= d <= days_in_month y m ->
  ~ (y = MAXYEAR /\ m = 12 /\ d = 31) ->
  exists date, next_day y m d = Some date.
Proof.
  intros Hy Hm Hd Hmax. unfold next_day.
  destruct (Z.ltb_spec d (days_in_month y m)); [eauto|].
  destruct (Z.ltb_spec m 12); [eauto|].
  destruct (Z.ltb_spec y MAXYEAR); [eauto|].
  exfalso. apply Hmax. assert (m = 12) by lia. subst m.
  unfold days_in_month in *. cbn in *. lia.
Qed.

(** C8.  For every valid UTC time [now] before 9999-12-31 20:00 (the last
    day a Python date can hold has no next day), the next trigger is
    defined; it is a valid time whose hour is one of 00, 04, 08, 12, 16,
    20 with minute, second and microsecond zero; it is strictly later
    than [now] and at most four hours later; no exact 4-hour mark lies
    strictly between [now] and it; and from 20:00 on it is 00:00 of the
    next calendar day, otherwise a mark of the same day. *)
Theorem next_rebalance_is_next_mark (now : datetime) :
  valid now = true ->
  ~ (year now = MAXYEAR /\ month now = 12 /\ day now = 31 /\ 20 <= hour now) ->
  exists nxt,
    get_next_rebalance_time now = Some nxt
    /\ valid nxt = true
    /\ instant now < instant nxt <= instant now + four_hours
    /\ In (hour nxt) [0; 4; 8; 12; 16; 20]
    /\ minute nxt = 0 /\ second nxt = 0 /\ microsecond nxt = 0
    /\ (forall m, valid m = true -> is_mark m = true ->
          instant now < instant m -> instant nxt <= instant m)
    /\ (if hour now <? 20
        then (year nxt, month nxt, day nxt) = (year now, month now, day now)
        else hour nxt = 0
             /\ toordinal (year nxt) (month nxt) (day nxt)
                = toordinal (year now) (month now) (day now) + 1).
Proof.
  intros Hv Hmax. apply valid_spec in Hv.
  destruct Hv as (Hy & Hmo & Hd & Hh & Hmi & Hs & Hus).
  assert (Hmin : forall nxt m,
             hour nxt mod 4 = 0 -> minute nxt = 0 -> second nxt = 0 ->
             microsecond nxt = 0 ->
             instant nxt <= instant now + four_hours ->
             valid m = true -> is_mark m = true ->
             instant now < instant m -> instant nxt <= instant m).
  { intros nxt m Hn4 Hn1 Hn2 Hn3 Hle Hvm Hm Hlt.
    unfold is_mark in Hm. rewrite !andb_true_iff, !Z.eqb_eq in Hm.
    destruct Hm as (((Hm4 & Hm1) & Hm2) & Hm3).
    unfold instant, four_hours in *.
    rewrite Hn1, Hn2, Hn3 in *. rewrite Hm1, Hm2, Hm3 in *.
    set (om := toordinal (year m) (month m) (day m)) in *.
    set (on := toordinal (year nxt) (month nxt) (day nxt)) in *.
    set (o := toordinal (year now) (month now) (day now)) in *.
    Z.div_mod_to_equations. lia. }
  unfold get_next_rebalance_time.
  destruct (Z.leb_spec 24 ((hour now / 4 + 1) * 4)) as [Hroll|Hsame].
  - (* 20:00 or later: midnight of the next day *)
    assert (H20 : 20 <= hour now) by (Z.div_mod_to_equations; lia).
    destruct (next_day_defined (year now) (month now) (day now))
      as [[[y' m'] d'] Hnd]; auto.
    { intros (? & ? & ?). apply Hmax. auto. }
    rewrite Hnd.
    destruct (next_day_spec _ _ _ _ _ _ Hy Hmo Hd Hnd)
      as (Hord & Hy' & Hm' & Hd').
    eexists. split; [reflexivity|].
    cbn [year month day hour minute second microsecond].
    assert (Hi : instant now < instant (mkDatetime y' m' d' 0 0 0 0)
                 <= instant now + four_hours).
    { unfold instant, four_hours.
      cbn [year month day hour minute second microsecond].
      rewrite Hord. lia. }
    split; [apply valid_spec; cbn; lia|].
    split; [exact Hi|].
    split; [now left|].
    repeat (split; [reflexivity|]).
    split.
    + intros m. apply Hmin; auto. apply Hi.
    + destruct (Z.ltb_spec (hour now) 20); [lia|]. auto.
  - (* before 20:00: a mark of the same day *)
    assert (H20 : hour now < 20) by (Z.div_mod_to_equations; lia).
    eexists. split; [reflexivity|].
    cbn [year month day hour minute second microsecond].
    set (nh := (hour now / 4 + 1) * 4) in *.
    assert (Hnh : hour now < nh <= hour now + 4
                  /\ nh mod 4 = 0 /\ 0 <= nh <= 20).
    { subst nh. Z.div_mod_to_equations. lia. }
    assert (Hi : instant now
                 < instant (mkDatetime (year now) (month now) (day now)
                              nh 0 0 0)
                 <= instant now + four_hours).
    { unfold instant, four_hours.
      cbn [year month day hour minute second microsecond]. lia. }
    split; [apply valid_spec; cbn; lia|].
    split; [exact Hi|].
    split.
    { assert (nh = 4 \/ nh = 8 \/ nh = 12 \/ nh = 16 \/ nh = 20)
        by (Z.div_mod_to_equations; lia).
      simpl. lia. }
    repeat (split; [reflexivity|]).
    split.
    + intros m. apply Hmin; auto; tauto.
    + destruct (Z.ltb_spec (hour now) 20); [reflexivity|lia].
Qed.

End ClockFacts.

(** ** The scenarios of the specification, and instances *)

Section Scenarios.
Import Dict.
Local Open Scope Q_scope.

(** Scenario B: capital 1000, two shorts, Z is left out. *)
Example scenario_B :
  calculate_target_positions 1000 2 (slice_to 2 scenario_B_ranked)
  = Some [("BTCUSDT", mkTarget Buy 1000);
          ("X", mkTarget Sell (1000 / 2));
          ("Y", mkTarget Sell (1000 / 2))]
  /\ 1000 / 2 == 500.
Proof. split; reflexivity. Qed.

Lemma targets_one_long_n_shorts_witness :
  (0 < 2 <= Z.of_nat (List.length scenario_B_ranked))%Z
  /\ exists targets,
       calculate_target_positions 1000 2 (slice_to 2 scenario_B_ranked)
       = Some targets
       /\ count_side Buy targets = 1%nat
       /\ Z.of_nat (count_side Sell targets) = 2%Z.
Proof.
  assert (Hn : (0 < 2 <= Z.of_nat (List.length scenario_B_ranked))%Z)
    by (simpl; lia).
  assert (Hnd : NoDup (map fst scenario_B_ranked)).
  { repeat constructor; simpl; intuition discriminate. }
  assert (Hbtc : ~ In "BTCUSDT" (map fst scenario_B_ranked)).
  { simpl. intuition discriminate. }
  split; [exact Hn|].
  destruct (proj1 (targets_one_long_n_shorts 1000 2 3 first_last_distance)
              scenario_B_ranked Hn Hnd Hbtc)
    as (t & Ht & _ & Hb & Hs & _).
  exists t. auto.
Defined.

(** With [LOOKBACK = 3] the exchange [three_alts] ranks CCC before AAA
    and does not rank BBB. *)
Example three_alts_ranked :
  ranked 3 first_last_distance three_alts = [("CCC", 5); ("AAA", 2)].
Proof. reflexivity. Qed.

Lemma insufficient_universe_skips_cycle_witness :
  (Z.of_nat (List.length (ranked 3 first_last_distance three_alts)) < 20)%Z
  /\ run_once 1000 20 3 true first_last_distance three_alts short_10_at_5
     = (short_10_at_5, InsufficientUniverse 2).
Proof.
  assert (H : (Z.of_nat (List.length
                           (ranked 3 first_last_distance three_alts))
               < 20)%Z) by (vm_compute; reflexivity).
  split; [exact H|].
  exact (insufficient_universe_skips_cycle 1000 20 3 first_last_distance
           true three_alts short_10_at_5 H).
Defined.

Lemma short_series_unrankable_witness :
  (Z.of_nat (List.length (closes three_alts "BBB" (3 + 5)%Z)) < 3)%Z
  /\ ~ In "BBB" (map fst (ranked 3 first_last_distance three_alts))
  /\ ~ In "BBB"
       (map fst (get_top_volatile_alts 2 3 first_last_distance three_alts)).
Proof.
  assert (H : (Z.of_nat (List.length (closes three_alts "BBB" (3 + 5)%Z))
               < 3)%Z) by (vm_compute; reflexivity).
  split; [exact H|].
  exact (proj2 (short_series_unrankable 2 3 first_last_distance)
           three_alts "BBB" H).
Defined.

Lemma ranking_sorted_stable_deterministic_witness :
  instruments three_alts_repriced = instruments three_alts
  /\ get_top_volatile_alts 2 3 first_last_distance three_alts_repriced
     = get_top_volatile_alts 2 3 first_last_distance three_alts.
Proof.
  split; [reflexivity|].
  apply (proj2 (proj2 (ranking_sorted_stable_deterministic
                         2 3 first_last_distance three_alts))).
  - reflexivity.
  - intros s _. reflexivity.
Defined.

Lemma reference_excluded_or_overwritten_witness :
  In "BTCUSDT" (map fst ranked_with_reference)
  /\ exists targets,
       calculate_target_positions 1000 2 ranked_with_reference
       = Some targets
       /\ get "BTCUSDT" targets = Some (mkTarget Sell (1000 / inject_Z 2))
       /\ count_side Buy targets = 0%nat.
Proof.
  assert (Hin : In "BTCUSDT" (map fst ranked_with_reference)).
  { simpl. auto. }
  assert (Hn : 2%Z <> 0%Z) by lia.
  split; [exact Hin|].
  destruct (proj2 (reference_excluded_or_overwritten
                     1000 2 3 first_last_distance)
              ranked_with_reference Hn Hin) as (t & Ht & Hg & _ & Hc).
  exists t. auto.
Defined.

(** The overwritten allocation, evaluated. *)
Example reference_overwritten :
  calculate_target_positions 1000 2 ranked_with_reference
  = Some [("BTCUSDT", mkTarget Sell (1000 / 2));
          ("X", mkTarget Sell (1000 / 2))].
Proof. reflexivity. Qed.
End Scenarios.

Section ClockScenarios.
Import Clock ClockFacts.
Local Open Scope Z_scope.

(** The ordinals of Python's [date.min] and [date.max]. *)
Example ordinal_range :
  toordinal 1 1 1 = 1 /\ toordinal 2024 1 1 = 738886
  /\ toordinal 9999 12 31 = 3652059.
Proof. repeat split. Qed.

Example midnight_rollover :
  get_next_rebalance_time new_year_eve_evening
  = Some (mkDatetime 2025 1 1 0 0 0 0).
Proof. reflexivity. Qed.

Example last_evening_overflows :
  get_next_rebalance_time (mkDatetime 9999 12 31 20 0 0 0) = None.
Proof. reflexivity. Qed.

Lemma next_rebalance_is_next_mark_witness :
  valid new_year_eve_evening = true
  /\ exists nxt,
       get_next_rebalance_time new_year_eve_evening = Some nxt
       /\ instant new_year_eve_evening < instant nxt
          <= instant new_year_eve_evening + four_hours.
Proof.
  assert (Hv : valid new_year_eve_evening = true) by reflexivity.
  assert (Hm : ~ (year new_year_eve_evening = MAXYEAR
                  /\ month new_year_eve_evening = 12
                  /\ day new_year_eve_evening = 31
                  /\ 20 <= hour new_year_eve_evening)).
  { intros [H _]. vm_compute in H. discriminate H. }
  split; [exact Hv|].
  destruct (next_rebalance_is_next_mark new_year_eve_evening Hv Hm)
    as (nxt & Hn & _ & Hi & _).
  exists nxt. auto.
Defined.
End ClockScenarios.

(** * Further properties *)

(** ** The paper ledger *)

Section LedgerMore.
Import Dict DictFacts.
Local Open Scope Q_scope.
Local Notation "b @ s" := (get s (paper_positions b)) (at level 20).

Lemma In_keys_target (targets : Dict.t target) s :
  In s (keys targets) -> exists tg, In (s, tg) targets.
Proof.
  intros H. apply in_map_iff in H. destruct H as ([s' tg] & <- & Hi).
  now exists tg.
Qed.

Lemma In_target_keys (targets : Dict.t target) s tg :
  In (s, tg) targets -> In s (keys targets).
Proof. intros H. change s with (fst (s, tg)). now apply in_map. Qed.


(** X1.  After any pass every symbol of the ledger is a targeted symbol;
    a targeted symbol with an available price is in the ledger on its
    target side; so when every targeted price is available the ledger
    holds exactly the targeted symbols. *)
Theorem ledger_tracks_targets
    (price : string -> Q) (targets : Dict.t target) (b : bot) :
  wf targets ->
  let b' := fst (execute_paper_trade price targets b) in
  (forall s, In s (keys (paper_positions b')) -> In s (keys targets))
  /\ (forall s tg, In (s, tg) targets -> 0 < price s ->
        exists pos, b' @ s = Some pos /\ p_side pos = t_side tg)
  /\ ((forall s, In s (keys targets) -> 0 < price s) ->
      forall s, In s (keys (paper_positions b')) <-> In s (keys targets)).
Proof.
  intros Hwf.
  destruct (execute_paper_trade price targets b) as [b' lg] eqn:He.
  destruct (pass_spec price targets b b' lg Hwf He)
    as (_ & _ & Hgone & _ & Hout).
  cbn [fst].
  assert (H1 : forall s, In s (keys (paper_positions b')) ->
                         In s (keys targets)).
  { intros s Hs. apply mem_true. destruct (mem s targets) eqn:Hm; auto.
    apply Hgone in Hm. apply get_None in Hm. tauto. }
  assert (H2 : forall s tg, In (s, tg) targets -> 0 < price s ->
                 exists pos, b' @ s = Some pos /\ p_side pos = t_side tg).
  { intros s tg Hi Hp. apply Qpositive_lt in Hp.
    destruct (Hout s tg Hi)
      as [Hn _|_ _ Hg _|pos _ _ Hs Hg _|pos _ _ _ Hg _ _].
    - congruence.
    - eexists; split; [exact Hg | reflexivity].
    - eexists; split; [exact Hg | exact Hs].
    - eexists; split; [exact Hg | reflexivity]. }
  split; [exact H1|]. split; [exact H2|].
  intros Hall s. split; [apply H1|].
  intros Hs. destruct (In_keys_target targets s Hs) as [tg Hi].
  destruct (H2 s tg Hi (Hall s Hs)) as (pos & Hg & _).
  destruct (get_None s (paper_positions b')) as [_ Hn].
  destruct (in_dec string_dec s (keys (paper_positions b'))); auto.
  rewrite Hn in Hg by auto. discriminate.
Qed.

Lemma ledger_tracks_targets_witness :
  wf sym_long_1000
  /\ forall s,
       In s (keys (paper_positions
                     (fst (execute_paper_trade (sym_price 4) sym_long_1000
                             short_10_at_5))))
       <-> In s (keys sym_long_1000).
Proof.
  assert (Hwf : wf sym_long_1000).
  { repeat constructor. simpl. tauto. }
  split; [exact Hwf|].
  apply (proj2 (proj2 (ledger_tracks_targets (sym_price 4) sym_long_1000
                         short_10_at_5 Hwf))).
  intros s [<-|[]]. reflexivity.
Defined.

(** X2.  A held position whose side is the side of its target is never
    touched, whatever the price and whatever the target's notional: the
    ledger keeps its size and entry price (a HOLD does not resize), and
    no line of the pass books an amount for that symbol. *)
Theorem hold_never_resizes
    (price : string -> Q) (targets : Dict.t target) (b : bot)
    (s : string) (tg : target) (pos : position) :
  wf targets -> In (s, tg) targets ->
  b @ s = Some pos -> p_side pos = t_side tg ->
  fst (execute_paper_trade price targets b) @ s = Some pos
  /\ forall a, In a (snd (execute_paper_trade price targets b)) ->
               symbol_of a = s -> booked a = [].
Proof.
  intros Hwf Hi Hg Hs.
  destruct (execute_paper_trade price targets b) as [b' lg] eqn:He.
  destruct (pass_spec price targets b b' lg Hwf He)
    as (_ & Hev & _ & _ & Hout).
  cbn [fst snd]. split.
  - destruct (Hout s tg Hi)
      as [_ Hsame|_ Hn _ _|pos' _ Hg' _ Hg'' _|pos' _ Hg' Hs' _ _ _];
      congruence.
  - intros a Ha Hsym. destruct (Hev a Ha) as [Hc|Hc].
    + destruct Hc as [s' pos' _ Hm _ _]. simpl in Hsym. subst s'.
      apply In_target_keys, mem_true in Hi. congruence.
    + destruct Hc as [s' tg' pos' Hi' _ Hg' Hs'|s' tg' pos' Hi' _ Hg' Hs'
                     |s' tg' _ _ _]; simpl in *; auto.
      subst s'. apply (In_get _ _ _ Hwf) in Hi, Hi'.
      assert (tg' = tg) by congruence. congruence.
Qed.

Lemma hold_never_resizes_witness :
  wf sym_long_1000
  /\ get "SYM"
       (paper_positions
          (fst (execute_paper_trade (sym_price 4) sym_long_1000
                  (mkBot [("SYM", mkPosition Buy 3 7)] 0))))
     = Some (mkPosition Buy 3 7).
Proof.
  assert (Hwf : wf sym_long_1000).
  { repeat constructor. simpl. tauto. }
  split; [exact Hwf|].
  apply (hold_never_resizes (sym_price 4) sym_long_1000
           (mkBot [("SYM", mkPosition Buy 3 7)] 0) "SYM"
           (mkTarget Buy 1000) (mkPosition Buy 3 7) Hwf).
  - now left.
  - reflexivity.
  - reflexivity.
Defined.



End LedgerMore.

Section LedgerAlgebra.
Import Dict DictFacts.
Local Open Scope Q_scope.
Local Notation "b @ s" := (get s (paper_positions b)) (at level 20).


Lemma fold_Qplus_zeros (l : list Q) :
  (forall q, In q l -> q == 0) -> forall a, fold_left Qplus l a == a.
Proof.
  induction l as [|q l IH]; intros Hz a; simpl; [reflexivity|].
  rewrite IH by (intros; apply Hz; now right).
  rewrite (Hz q) by now left. ring.
Qed.

Lemma realized_at_entry (pos : position) : realized pos (p_entry pos) == 0.
Proof. unfold realized. destruct (p_side pos); ring. Qed.

Lemma all_none_empty {V : Type} (d : Dict.t V) :
  (forall s, get s d = None) -> d = [].
Proof.
  destruct d as [|[k v] d]; auto. intros H. specialize (H k).
  simpl in H. rewrite String.eqb_refl in H. discriminate.
Qed.









Lemma amounts_nil (lg : list action) :
  (forall a, In a lg -> booked a = []) -> amounts lg = [].
Proof.
  induction lg as [|a lg IH]; intros H; auto.
  unfold amounts in *. simpl. rewrite (H a) by now left.
  apply IH. intros a' Ha'. apply H. now right.
Qed.

(** What a pass does to a ledger without positions. *)
Lemma fresh_pass price targets b b' lg :
  paper_positions b = [] -> wf targets ->
  execute_paper_trade price targets b = (b', lg) ->
  paper_pnl b' = paper_pnl b
  /\ (forall a, In a lg ->
        exists s tg, In (s, tg) targets /\ 0 < price s
                     /\ a = OPEN (t_side tg) s (t_value tg / price s)
                              (price s) (t_value tg))
  /\ (forall s pos, In (s, pos) (items (paper_positions b')) ->
        p_entry pos = price s).
Proof.
  intros Hempty Hwf He.
  destruct (pass_spec price targets b b' lg Hwf He)
    as (Hp & Hev & Hgone & _ & Hout).
  assert (Hnone : forall s, b @ s = None) by (intros; now rewrite Hempty).
  assert (Hopen : forall a, In a lg ->
             exists s tg, In (s, tg) targets /\ 0 < price s
                          /\ a = OPEN (t_side tg) s (t_value tg / price s)
                                   (price s) (t_value tg)).
  { intros a Ha. destruct (Hev a Ha) as [Hc|Hc].
    - destruct Hc as [s pos _ _ Hg _]. rewrite Hnone in Hg. discriminate.
    - destruct Hc as [s tg pos _ _ Hg _|s tg pos _ _ Hg _|s tg Hi Hpx _].
      + rewrite Hnone in Hg. discriminate.
      + rewrite Hnone in Hg. discriminate.
      + exists s, tg. apply Qpositive_lt in Hpx. auto. }
  split; [|split; [exact Hopen|]].
  - rewrite Hp, amounts_nil; auto.
    intros a Ha. now destruct (Hopen a Ha) as (s & tg & _ & _ & ->).
  - intros s pos Hi.
    assert (Hwfb : wf (paper_positions b')).
    { replace b' with (fst (execute_paper_trade price targets b))
        by now rewrite He.
      apply pass_keeps_wf. rewrite Hempty. constructor. }
    apply (In_get _ _ _ Hwfb) in Hi.
    destruct (mem s targets) eqn:Hm.
    2:{ rewrite (Hgone s Hm) in Hi. discriminate. }
    apply mem_true, In_keys_target in Hm. destruct Hm as [tg Ht].
    destruct (Hout s tg Ht)
      as [_ Hsame|_ _ Hg _|pos' _ Hg _ _ _|pos' _ Hg _ _ _ _].
    + rewrite Hsame, Hnone in Hi. discriminate.
    + rewrite Hg in Hi. injection Hi as <-. reflexivity.
    + rewrite Hnone in Hg. discriminate.
    + rewrite Hnone in Hg. discriminate.
Qed.




(** X6.  Opening and closing at unchanged prices is free: after a pass on
    a ledger without positions, a second pass with no target at the same
    prices removes every position and leaves the realized PnL where it
    was before the first pass. *)
Theorem open_then_close_is_free
    (price : string -> Q) (targets : Dict.t target) (b : bot) :
  paper_positions b = [] -> wf targets ->
  let b1 := fst (execute_paper_trade price targets b) in
  let b2 := fst (execute_paper_trade price [] b1) in
  paper_positions b2 = [] /\ paper_pnl b2 == paper_pnl b.
Proof.
  intros Hempty Hwf.
  destruct (execute_paper_trade price targets b) as [b1 lg1] eqn:E1.
  destruct (fresh_pass price targets b b1 lg1 Hempty Hwf E1)
    as (Hp & _ & Hentry).
  cbn [fst].
  destruct (execute_paper_trade price [] b1) as [b2 lg2] eqn:E2.
  assert (Hwf0 : wf (@nil (string * target))) by constructor.
  destruct (pass_spec price [] b1 b2 lg2 Hwf0 E2)
    as (Hp2 & Hev & Hgone & _ & _).
  cbn [fst]. split.
  - apply all_none_empty. intros s. now apply Hgone.
  - rewrite Hp2, <- Hp. apply fold_Qplus_zeros.
    intros q Hq. unfold amounts in Hq. apply in_flat_map in Hq.
    destruct Hq as (a & Ha & Hq). destruct (Hev a Ha) as [Hc|Hc].
    + destruct Hc as [s pos _ _ Hg _]. simpl in Hq.
      destruct Hq as [<-|[]].
      apply get_Some_In in Hg. rewrite <- (Hentry s pos Hg).
      apply realized_at_entry.
    + destruct Hc as [s tg pos []|s tg pos []|s tg []].
Qed.

Lemma open_then_close_is_free_witness :
  wf two_targets
  /\ paper_positions
       (fst (execute_paper_trade (fun _ => 4) []
               (fst (execute_paper_trade (fun _ => 4) two_targets init))))
     = [].
Proof.
  assert (Hwf : wf two_targets).
  { repeat constructor; simpl; intuition discriminate. }
  split; [exact Hwf|].
  apply (open_then_close_is_free (fun _ => 4) two_targets init eq_refl Hwf).
Defined.

End LedgerAlgebra.

(** ** The live path *)

Section LiveMore.
Import Dict DictFacts.
Local Open Scope Q_scope.

Variable x : exchange.
Variable targets : Dict.t target.

Lemma current_positions_spec rows :
  wf (current_positions rows)
  /\ forall s pos, get s (current_positions rows) = Some pos ->
       In (s, pos) rows /\ 0 < l_size pos.
Proof.
  unfold current_positions.
  assert (H : forall (d : Dict.t live_position),
             wf d ->
             (forall s pos, get s d = Some pos ->
                In (s, pos) rows /\ 0 < l_size pos) ->
             forall l, incl l rows ->
             let d' := fold_left
                         (fun d row =>
                            if Qpositive (l_size (snd row))
                            then set (fst row) (snd row) d else d) l d in
             wf d' /\ forall s pos, get s d' = Some pos ->
                        In (s, pos) rows /\ 0 < l_size pos).
  { intros d Hwf Hd l. revert d Hwf Hd.
    induction l as [|[k p] l IH]; intros d Hwf Hd Hincl; simpl; auto.
    apply IH.
    - destruct (Qpositive (l_size p)); auto using wf_set.
    - intros s pos. destruct (Qpositive (l_size p)) eqn:Hp; auto.
      destruct (String.eqb_spec k s) as [->|Hne].
      + rewrite get_set_same. intros [= <-]. split.
        * apply Hincl. now left.
        * now apply Qpositive_lt.
      + rewrite get_set_other by auto. auto.
    - intros r Hr. apply Hincl. now right. }
  apply H.
  - constructor.
  - discriminate.
  - apply incl_refl.
Qed.

Lemma live_close_app items : forall acc,
  fold_left (live_close_body targets) items acc
  = acc ++ fold_left (live_close_body targets) items [].
Proof.
  induction items as [|[s pos] items IH]; intros acc; simpl.
  - now rewrite app_nil_r.
  - destruct (mem s targets); auto.
    rewrite IH, (IH [_]). now rewrite app_assoc.
Qed.

Lemma live_open_app current items : forall acc,
  fold_left (live_open_body x current) items acc
  = acc ++ fold_left (live_open_body x current) items [].
Proof.
  induction items as [|[s tg] items IH]; intros acc.
  - simpl. now rewrite app_nil_r.
  - cbn [fold_left]. rewrite IH, (IH (live_open_body _ _ [] _)).
    rewrite app_assoc. f_equal. unfold live_open_body.
    destruct (mem s current); [now rewrite app_nil_r|].
    destruct (leverage_ok x s); simpl; [|now rewrite app_nil_r].
    destruct (lot_size x s) as [[mn st]|]; [|now rewrite app_nil_r].
    destruct (Qeq_bool (mark_price x s) 0); [now rewrite app_nil_r|].
    destruct (Qeq_bool st 0); [now rewrite app_nil_r|]. reflexivity.
Qed.

Lemma live_close_In items o :
  In o (fold_left (live_close_body targets) items []) <->
  exists s pos, In (s, pos) items /\ mem s targets = false
                /\ o = mkOrder s (opposite (l_side pos)) (l_size pos) true.
Proof.
  induction items as [|[s pos] items IH]; simpl.
  - split; [tauto | intros (? & ? & [] & _)].
  - destruct (mem s targets) eqn:Hm.
    + rewrite IH. split.
      * intros (s' & p' & Hi & Hr). exists s', p'. auto.
      * intros (s' & p' & [[= <- <-]|Hi] & Hm' & Ho); [congruence|].
        exists s', p'. auto.
    + rewrite live_close_app. simpl. rewrite IH. split.
      * intros [<-|(s' & p' & Hi & Hr)].
        { exists s, pos. auto. }
        { exists s', p'. auto. }
      * intros (s' & p' & [[= <- <-]|Hi] & Hm' & Ho); [now left|].
        right. exists s', p'. auto.
Qed.

Lemma opens_for_spec current s :
  opens_for x current s = true <->
  mem s current = false /\ leverage_ok x s = true
  /\ exists mn st, lot_size x s = Some (mn, st)
                   /\ ~ mark_price x s == 0 /\ ~ st == 0.
Proof.
  unfold opens_for.
  rewrite !andb_true_iff, negb_true_iff.
  destruct (lot_size x s) as [[mn st]|].
  - rewrite andb_true_iff, !negb_true_iff. split.
    + intros ((Hm & Hl) & Hp & Hs). repeat split; auto.
      exists mn, st. repeat split; auto.
      * intros E. apply Qeq_bool_iff in E. congruence.
      * intros E. apply Qeq_bool_iff in E. congruence.
    + intros (Hm & Hl & mn' & st' & [= <- <-] & Hp & Hs).
      repeat split; auto.
      * destruct (Qeq_bool (mark_price x s) 0) eqn:E; auto.
        apply Qeq_bool_iff in E. tauto.
      * destruct (Qeq_bool st 0) eqn:E; auto.
        apply Qeq_bool_iff in E. tauto.
  - split; [intros [_ H]; discriminate|].
    intros (_ & _ & mn & st & H & _). discriminate.
Qed.

Lemma live_open_step current s tg :
  live_open_body x current [] (s, tg)
  = if opens_for x current s then
      match lot_size x s with
      | Some (mn, st) =>
          [mkOrder s (t_side tg) (open_qty tg (mark_price x s) mn st) false]
      | None => []
      end
    else [].
Proof.
  unfold live_open_body, opens_for, open_qty.
  destruct (mem s current); auto.
  destruct (leverage_ok x s); auto. simpl.
  destruct (lot_size x s) as [[mn st]|]; auto.
  destruct (Qeq_bool (mark_price x s) 0); auto.
  destruct (Qeq_bool st 0); auto.
Qed.

Lemma live_open_In current items o :
  In o (fold_left (live_open_body x current) items []) <->
  exists s tg mn st,
    In (s, tg) items /\ opens_for x current s = true
    /\ lot_size x s = Some (mn, st)
    /\ o = mkOrder s (t_side tg) (open_qty tg (mark_price x s) mn st) false.
Proof.
  induction items as [|[s tg] items IH].
  - simpl. split; [tauto | intros (? & ? & ? & ? & [] & _)].
  - cbn [fold_left]. rewrite live_open_app, in_app_iff, IH.
    rewrite live_open_step. split.
    + intros [Ho|(s' & tg' & mn & st & Hi & Hr)].
      * destruct (opens_for x current s) eqn:Hof; [|destruct Ho].
        destruct (lot_size x s) as [[mn st]|] eqn:Hl; [|destruct Ho].
        destruct Ho as [<-|[]]. exists s, tg, mn, st.
        repeat split; auto. now left.
      * exists s', tg', mn, st. split; [now right | exact Hr].
    + intros (s' & tg' & mn & st & [[= <- <-]|Hi] & Hof & Hl & Ho).
      * left. rewrite Hof, Hl. now left.
      * right. exists s', tg', mn, st. auto.
Qed.

Lemma live_close_symbols items :
  map o_symbol (fold_left (live_close_body targets) items [])
  = filter (fun s => negb (mem s targets)) (map fst items).
Proof.
  induction items as [|[s pos] items IH]; simpl; auto.
  destruct (mem s targets); simpl; auto.
  rewrite live_close_app. simpl. now rewrite IH.
Qed.

Lemma live_open_symbols current items :
  map o_symbol (fold_left (live_open_body x current) items [])
  = filter (opens_for x current) (map fst items).
Proof.
  induction items as [|[s tg] items IH]; auto.
  cbn [fold_left]. rewrite live_open_app, map_app, IH, live_open_step.
  simpl. destruct (opens_for x current s) eqn:Hof; auto.
  apply opens_for_spec in Hof.
  destruct Hof as (_ & _ & mn & st & -> & _). reflexivity.
Qed.


End LiveMore.

Section LiveTheorems.
Import Dict DictFacts.
Local Open Scope Q_scope.





(** X8.  The live pass first hands over all its closing orders, then all
    its opening orders; every held symbol that is not targeted gets its
    closing order, and every targeted symbol for which the opening order
    can be built (not held, leverage set, lot filter read, price and step
    not zero) gets an opening order on its target side. *)
Theorem live_closes_then_opens
    (x : exchange) (targets : Dict.t target)
    (rows : list (string * live_position)) :
  open_positions x = Some rows ->
  exists closes opens,
    execute_live_trade x targets = closes ++ opens
    /\ Forall (fun o => o_reduce_only o = true) closes
    /\ Forall (fun o => o_reduce_only o = false) opens
    /\ (forall s pos,
          get s (current_positions rows) = Some pos ->
          mem s targets = false ->
          In (mkOrder s (opposite (l_side pos)) (l_size pos) true) closes)
    /\ (forall s tg,
          In (s, tg) targets ->
          opens_for x (current_positions rows) s = true ->
          exists o, In o opens /\ o_symbol o = s /\ o_side o = t_side tg).
Proof.
  intros Hrows. unfold execute_live_trade. rewrite Hrows, live_open_app.
  eexists _, _. split; [reflexivity|].
  split; [|split; [|split]].
  - apply Forall_forall. intros o Ho. apply live_close_In in Ho.
    now destruct Ho as (s & pos & _ & _ & ->).
  - apply Forall_forall. intros o Ho. apply live_open_In in Ho.
    now destruct Ho as (s & tg & mn & st & _ & _ & _ & ->).
  - intros s pos Hg Hm. apply live_close_In. exists s, pos.
    repeat split; auto. now apply get_Some_In.
  - intros s tg Hi Hof.
    destruct (proj1 (opens_for_spec x _ s) Hof)
      as (_ & _ & mn & st & Hl & _).
    eexists. split.
    + apply live_open_In. exists s, tg, mn, st. eauto.
    + auto.
Qed.

Lemma live_closes_then_opens_witness :
  exists closes opens,
    execute_live_trade holding_long_alt sym_long_1000 = closes ++ opens
    /\ Forall (fun o => o_reduce_only o = true) closes
    /\ Forall (fun o => o_reduce_only o = false) opens.
Proof.
  destruct (live_closes_then_opens holding_long_alt sym_long_1000
              [("ALT", mkLive Buy 3 30)] eq_refl)
    as (closes & opens & E & Hc & Ho & _).
  exists closes, opens. auto.
Defined.

(** X9.  With the keys of the allocation unique, the live pass hands at
    most one order per symbol to the exchange. *)
Theorem live_one_order_per_symbol
    (x : exchange) (targets : Dict.t target) :
  wf targets -> NoDup (map o_symbol (execute_live_trade x targets)).
Proof.
  intros Hwf. unfold execute_live_trade.
  destruct (open_positions x) as [rows|]; [|constructor].
  rewrite live_open_app, map_app, live_close_symbols, live_open_symbols.
  apply NoDup_app.
  - apply NoDup_filter. apply current_positions_spec.
  - apply NoDup_filter. exact Hwf.
  - intros s Hc Ho. apply filter_In in Hc, Ho.
    destruct Hc as [_ Hm]. destruct Ho as [Hk _]. unfold items in Hk.
    apply mem_true in Hk. rewrite Hk in Hm. discriminate.
Qed.

Lemma live_one_order_per_symbol_witness :
  wf sym_long_1000
  /\ NoDup (map o_symbol (execute_live_trade holding_long_alt sym_long_1000)).
Proof.
  assert (Hwf : wf sym_long_1000).
  { repeat constructor. simpl. tauto. }
  split; [exact Hwf|].
  exact (live_one_order_per_symbol holding_long_alt sym_long_1000 Hwf).
Defined.



End LiveTheorems.

(** ** The ranker, the calculator and the cycle *)

Section FoldSetFacts.
Import Dict DictFacts.
Context {V : Type}.
Implicit Types (d : Dict.t V) (l : list (string * Q)).




End FoldSetFacts.

Section SortedFacts.
Lemma sorted_app_dominates (l1 l2 : list (string * Q)) :
  StronglySorted vol_ge (l1 ++ l2) ->
  forall a b, In a l1 -> In b l2 -> vol_ge a b.
Proof.
  induction l1 as [|x l1 IH]; simpl; intros Hs a b Ha Hb; [tauto|].
  apply StronglySorted_inv in Hs. destruct Hs as [Hs Hall].
  destruct Ha as [<-|Ha]; [|eauto].
  rewrite Forall_forall in Hall. apply Hall, in_or_app. now right.
Qed.

End SortedFacts.

Section StrategyMore.
Variable CAPITAL : Q.
Variables N_SHORTS LOOKBACK : Z.
Variable tail_log_return_std : Z -> list Q -> option Q.
Import Dict DictFacts.
Local Open Scope Q_scope.

Local Abbreviation volatility :=
  (calculate_volatility LOOKBACK tail_log_return_std).
Local Abbreviation step := (rank_body LOOKBACK tail_log_return_std).
Local Abbreviation scored_in := (scored LOOKBACK tail_log_return_std).
Local Abbreviation ranked_in := (ranked LOOKBACK tail_log_return_std).
Local Abbreviation top_of :=
  (get_top_volatile_alts N_SHORTS LOOKBACK tail_log_return_std).
Local Abbreviation allocate := (calculate_target_positions CAPITAL N_SHORTS).





(** X12.  The ranker's output is the head of the ranked sequence: what
    it leaves out has no higher volatility than anything it keeps; and
    for [N_SHORTS >= 0] it has [min N_SHORTS (number of ranked)] entries,
    never more than [N_SHORTS]. *)
Theorem top_n_dominates (x : exchange) :
  (exists rest,
      ranked_in x = top_of x ++ rest
      /\ forall kept left_out,
           In kept (top_of x) -> In left_out rest ->
           snd left_out <= snd kept)
  /\ ((0 <= N_SHORTS)%Z ->
      List.length (top_of x)
      = Nat.min (Z.to_nat N_SHORTS) (List.length (ranked_in x))
      /\ (Z.of_nat (List.length (top_of x)) <= N_SHORTS)%Z).
Proof.
  split.
  - destruct (slice_to_prefix N_SHORTS (ranked_in x)) as [rest Hrest].
    exists rest. split; [exact Hrest|].
    intros kept left_out Hk Hl.
    apply (sorted_app_dominates (top_of x) rest); auto.
    unfold get_top_volatile_alts. rewrite <- Hrest.
    apply sort_desc_sorted.
  - intros Hn. unfold get_top_volatile_alts, slice_to.
    destruct (Z.leb_spec 0 N_SHORTS) as [_|?]; [|lia].
    rewrite length_firstn. split; lia.
Qed.




(** X15.  The instruments the bot ranks come from the instrument query:
    when the exchange's instrument list is what
    [get_usdt_perp_symbols] returns, every symbol in the ranker's output
    belongs to a row of the response whose quote coin is USDT, whose
    status is Trading and whose contract type is LinearPerpetual; a
    failed query ranks nothing. *)
Theorem only_listed_perps_are_ranked
    (x : exchange) (response : option (list instrument)) :
  instruments x = get_usdt_perp_symbols response ->
  forall e, In e (top_of x) ->
    exists rows row,
      response = Some rows /\ In row rows /\ i_symbol row = fst e
      /\ i_quote_coin row = "USDT" /\ i_status row = "Trading"
      /\ i_contract_type row = "LinearPerpetual".
Proof.
  intros Hx e He. apply In_slice_to in He.
  unfold ranked in He. rewrite sort_desc_In in He.
  apply rank_fold_In in He. destruct He as [[]|(Hs & _)].
  rewrite Hx in Hs. destruct response as [rows|]; [|destruct Hs].
  simpl in Hs. apply in_map_iff in Hs. destruct Hs as (row & Hsym & Hr).
  apply filter_In in Hr. destruct Hr as [Hr Hok].
  unfold is_active_usdt_perp in Hok.
  rewrite !andb_true_iff, !String.eqb_eq in Hok.
  exists rows, row. tauto.
Qed.

Variable PAPER_TRADE : bool.

Local Abbreviation cycle :=
  (run_once CAPITAL N_SHORTS LOOKBACK PAPER_TRADE tail_log_return_std).

(** X16.  [N_SHORTS] below one is not caught by the guard of [run_once].
    With [N_SHORTS = 0] every cycle ends in the [ZeroDivisionError] of
    the calculator, with the ledger as it was; with [N_SHORTS < 0] the
    guard never reports an insufficient universe and the cycle trades
    (on the ranked sequence without its last [-N_SHORTS] entries). *)
Theorem nonpositive_shorts_not_guarded (x : exchange) (b : bot) :
  (N_SHORTS = 0%Z -> cycle x b = (b, ZeroDivisionError))
  /\ ((N_SHORTS < 0)%Z ->
      top_of x
      = firstn (List.length (ranked_in x) - Z.to_nat (- N_SHORTS))
          (ranked_in x)
      /\ match snd (cycle x b) with
         | PaperTraded _ | LiveTraded _ => True
         | InsufficientUniverse _ | ZeroDivisionError => False
         end).
Proof.
  split.
  - intros Hn. unfold run_once, calculate_target_positions.
    destruct (Z.ltb_spec (Z.of_nat (List.length (top_of x))) N_SHORTS);
      [lia|].
    now rewrite Hn.
  - intros Hn. split.
    + unfold get_top_volatile_alts, slice_to.
      destruct (Z.leb_spec 0 N_SHORTS); [lia|]. f_equal. lia.
    + unfold run_once, calculate_target_positions.
      destruct (Z.ltb_spec (Z.of_nat (List.length (top_of x))) N_SHORTS);
        [lia|].
      destruct (Z.eqb_spec N_SHORTS 0); [lia|].
      destruct PAPER_TRADE; [|exact I].
      now destruct (execute_paper_trade _ _ _).
Qed.

(** X17.  A cycle without market data changes nothing: when every listed
    instrument is BTCUSDT or has an empty candle frame (in particular
    when the instrument query failed and the list is empty) and
    [N_SHORTS > 0], [run_once] reports an insufficient universe of zero
    and returns the ledger it was given. *)
Theorem no_data_skips_cycle (x : exchange) (b : bot) :
  (forall s, In s (instruments x) ->
     s = "BTCUSDT" \/ closes x s (LOOKBACK + 5)%Z = []) ->
  (0 < N_SHORTS)%Z ->
  cycle x b = (b, InsufficientUniverse 0).
Proof.
  intros Hdata Hn.
  assert (Hs : scored_in x = []).
  { unfold scored.
    assert (H : forall syms acc,
               (forall s, In s syms ->
                  s = "BTCUSDT" \/ closes x s (LOOKBACK + 5)%Z = []) ->
               fold_left (step x) syms acc = acc).
    { induction syms as [|s syms IH]; intros acc Hall; simpl; auto.
      rewrite IH by (intros; apply Hall; now right).
      unfold rank_body. destruct (Hall s) as [->|Hdf]; [now left| |].
      - reflexivity.
      - destruct (String.eqb s "BTCUSDT"); auto. now rewrite Hdf. }
    now apply H. }
  unfold run_once, get_top_volatile_alts, ranked. rewrite Hs. simpl.
  assert (Ht : slice_to N_SHORTS (@nil (string * Q)) = []).
  { unfold slice_to. destruct (0 <=? N_SHORTS)%Z; apply firstn_nil. }
  rewrite Ht. simpl.
  destruct (Z.ltb_spec 0 N_SHORTS); [reflexivity | lia].
Qed.

(** X18.  A whole paper cycle.  When the exchange lists each instrument
    once, at least [N_SHORTS > 0] instruments are ranked and BTCUSDT and
    the selected symbols all have a price, [run_once] in paper mode runs
    the reconciliation and leaves a ledger that holds exactly BTCUSDT,
    long, and the [N_SHORTS] selected symbols, each short:
    [N_SHORTS + 1] positions in all. *)
Theorem paper_cycle_reaches_allocation (x : exchange) (b : bot) :
  wf (paper_positions b) ->
  NoDup (instruments x) ->
  (0 < N_SHORTS <= Z.of_nat (List.length (ranked_in x)))%Z ->
  0 < mark_price x "BTCUSDT" ->
  (forall e, In e (top_of x) -> 0 < mark_price x (fst e)) ->
  let r := run_once CAPITAL N_SHORTS LOOKBACK true tail_log_return_std x b in
  (exists lg, snd r = PaperTraded lg)
  /\ (forall s, In s (keys (paper_positions (fst r))) <->
                s = "BTCUSDT" \/ In s (map fst (top_of x)))
  /\ (exists pos, get "BTCUSDT" (paper_positions (fst r)) = Some pos
                  /\ p_side pos = Buy)
  /\ (forall e, In e (top_of x) ->
        exists pos, get (fst e) (paper_positions (fst r)) = Some pos
                    /\ p_side pos = Sell)
  /\ List.length (paper_positions (fst r)) = S (Z.to_nat N_SHORTS).
Proof.
  intros Hwfb Hnd Hn Hbtc Hpx.
  destruct (slice_to_long N_SHORTS (ranked_in x)) as [Hsl Hlen]; [lia|].
  fold (top_of x) in Hsl, Hlen.
  assert (Hsub : forall k, In k (map fst (top_of x)) ->
                           In k (map fst (ranked_in x))).
  { intros k Hk. rewrite Hsl, <- firstn_map in Hk. eapply In_firstn, Hk. }
  assert (Hndt : NoDup (map fst (top_of x))).
  { rewrite Hsl, <- firstn_map. apply NoDup_firstn.
    now apply ranked_distinct. }
  assert (Hnb : ~ In "BTCUSDT" (map fst (top_of x))).
  { intros H. apply (ranked_no_reference LOOKBACK tail_log_return_std x).
    now apply Hsub. }
  pose proof (allocate_fresh CAPITAL N_SHORTS (top_of x)
                ltac:(lia) Hndt Hnb) as Halloc.
  set (short := mkTarget Sell (CAPITAL / inject_Z N_SHORTS)) in *.
  set (T := ("BTCUSDT", mkTarget Buy CAPITAL)
            :: map (fun e => (fst e, short)) (top_of x)) in *.
  assert (HkT : keys T = "BTCUSDT" :: map fst (top_of x)).
  { unfold T, keys. simpl. now rewrite map_map. }
  assert (HwfT : wf T).
  { unfold wf. rewrite HkT. now constructor. }
  assert (HpT : forall s, In s (keys T) -> 0 < mark_price x s).
  { intros s. rewrite HkT. intros [<-|Hs]; auto.
    apply in_map_iff in Hs. destruct Hs as (e & <- & He). auto. }
  unfold run_once.
  destruct (Z.ltb_spec (Z.of_nat (List.length (top_of x))) N_SHORTS);
    [lia|].
  rewrite Halloc.
  destruct (execute_paper_trade (mark_price x) T b) as [b' lg] eqn:He.
  cbn [fst snd].
  destruct (pass_reaches_targets (mark_price x) T b b' lg HwfT HpT He)
    as (Hkeys & Hsides).
  assert (Hiff : forall s, In s (keys (paper_positions b')) <->
                           s = "BTCUSDT" \/ In s (map fst (top_of x))).
  { intros s. split.
    - intros Hs. apply Hkeys, mem_true in Hs. rewrite HkT in Hs.
      destruct Hs; auto.
    - intros Hs.
      assert (HsT : In s (keys T)).
      { rewrite HkT. destruct Hs; [left|right]; auto. }
      apply In_keys_target in HsT. destruct HsT as [tg Ht].
      destruct (Hsides s tg Ht) as (_ & pos & Hg & _).
      destruct (get_None s (paper_positions b')) as [_ Hnone].
      destruct (in_dec string_dec s (keys (paper_positions b'))); auto.
      rewrite Hnone in Hg by auto. discriminate. }
  split; [eauto|]. split; [exact Hiff|]. split; [|split].
  - destruct (Hsides "BTCUSDT" (mkTarget Buy CAPITAL)) as (_ & pos & Hg & Hs).
    { now left. }
    exists pos. auto.
  - intros e He'. destruct (Hsides (fst e) short) as (_ & pos & Hg & Hs).
    { right. apply in_map_iff. exists e. auto. }
    exists pos. auto.
  - assert (Hwfb' : wf (paper_positions b')).
    { replace b' with (fst (execute_paper_trade (mark_price x) T b))
        by now rewrite He.
      now apply pass_keeps_wf. }
    assert (Hperm : Permutation (keys (paper_positions b')) (keys T)).
    { apply NoDup_Permutation; auto. intros s. rewrite Hiff, HkT.
      simpl. intuition. }
    apply Permutation_length in Hperm. unfold keys in Hperm.
    rewrite !length_map in Hperm. rewrite Hperm. unfold T.
    simpl. now rewrite length_map, Hlen.
Qed.

End StrategyMore.

(** ** The scheduler *)

Module ClockMore.
Import Clock ClockFacts Loop.
Local Open Scope Z_scope.

(** The next trigger is a mark in the window of four hours after [now]. *)
Lemma next_trigger_window (now : datetime) :
  valid now = true -> ~ last_evening now ->
  exists nxt,
    get_next_rebalance_time now = Some nxt
    /\ valid nxt = true
    /\ hour nxt mod 4 = 0 /\ minute nxt = 0 /\ second nxt = 0
    /\ microsecond nxt = 0
    /\ instant now < instant nxt <= instant now + four_hours
    /\ (if hour now <? 20
        then (year nxt, month nxt, day nxt) = (year now, month now, day now)
             /\ hour nxt <= hour now + 4
        else hour nxt = 0).
Proof.
  intros Hv Hmax. apply valid_spec in Hv.
  destruct Hv as (Hy & Hmo & Hd & Hh & Hmi & Hs & Hus).
  unfold get_next_rebalance_time.
  destruct (Z.leb_spec 24 ((hour now / 4 + 1) * 4)) as [Hroll|Hsame].
  - assert (H20 : 20 <= hour now) by (Z.div_mod_to_equations; lia).
    destruct (next_day_defined (year now) (month now) (day now))
      as [[[y' m'] d'] Hnd]; auto.
    { intros (? & ? & ?). apply Hmax. unfold last_evening. auto. }
    rewrite Hnd.
    destruct (next_day_spec _ _ _ _ _ _ Hy Hmo Hd Hnd)
      as (Hord & Hy' & Hm' & Hd').
    eexists. split; [reflexivity|].
    cbn [year month day hour minute second microsecond].
    split; [apply valid_spec; cbn; lia|].
    repeat (split; [reflexivity|]).
    split.
    + unfold instant, four_hours.
      cbn [year month day hour minute second microsecond].
      rewrite Hord. lia.
    + destruct (Z.ltb_spec (hour now) 20); [lia | reflexivity].
  - assert (H20 : hour now < 20) by (Z.div_mod_to_equations; lia).
    eexists. split; [reflexivity|].
    cbn [year month day hour minute second microsecond].
    set (nh := (hour now / 4 + 1) * 4) in *.
    assert (Hnh : hour now < nh <= hour now + 4
                  /\ nh mod 4 = 0 /\ 0 <= nh <= 20).
    { subst nh. Z.div_mod_to_equations. lia. }
    split; [apply valid_spec; cbn; lia|].
    split; [tauto|].
    repeat (split; [reflexivity|]).
    split.
    + unfold instant, four_hours.
      cbn [year month day hour minute second microsecond]. lia.
    + destruct (Z.ltb_spec (hour now) 20); [|lia]. split; [reflexivity|lia].
Qed.

(** The instant of a mark is a whole number of four-hour spans. *)
Lemma mark_instant (t : datetime) :
  hour t mod 4 = 0 -> minute t = 0 -> second t = 0 -> microsecond t = 0 ->
  instant t
  = (toordinal (year t) (month t) (day t) * 6 + hour t / 4) * four_hours.
Proof.
  intros H4 Hm Hs Hu. unfold instant, four_hours. rewrite Hm, Hs, Hu.
  set (o := toordinal (year t) (month t) (day t)).
  Z.div_mod_to_equations. lia.
Qed.

(** X19.  The trigger in closed form: for a valid time before
    9999-12-31 20:00 the next trigger is the start of the four-hour span
    after the one [now] lies in, [(now div 4h + 1) * 4h] on the timeline;
    from 9999-12-31 20:00 on the call raises, the following day being out
    of the range of dates. *)
Theorem next_trigger_closed_form (now : datetime) :
  valid now = true ->
  (~ last_evening now ->
   exists nxt,
     get_next_rebalance_time now = Some nxt
     /\ instant nxt = (instant now / four_hours + 1) * four_hours)
  /\ (last_evening now -> get_next_rebalance_time now = None).
Proof.
  intros Hv. split.
  - intros Hmax.
    destruct (next_trigger_window now Hv Hmax)
      as (nxt & Hn & _ & H4 & Hm & Hs & Hu & Hi & _).
    exists nxt. split; [exact Hn|].
    rewrite (mark_instant nxt H4 Hm Hs Hu) in *.
    set (k := toordinal (year nxt) (month nxt) (day nxt) * 6 + hour nxt / 4)
      in *.
    f_equal.
    assert (E : instant now / four_hours = k - 1).
    { symmetry.
      apply (Z.div_unique (instant now) four_hours (k - 1)
               (instant now - (k - 1) * four_hours)).
      - left. unfold four_hours in *. lia.
      - unfold four_hours. lia. }
    lia.
  - intros (Hy & Hm & Hd & Hh). apply valid_spec in Hv.
    unfold get_next_rebalance_time, next_day.
    destruct (Z.leb_spec 24 ((hour now / 4 + 1) * 4)) as [_|Hlt].
    2:{ Z.div_mod_to_equations. lia. }
    rewrite Hy, Hm, Hd. reflexivity.
Qed.

(** X20.  Successive triggers are four hours apart: for a valid time
    before 9999-12-31 16:00 the trigger after the next trigger is defined
    and lies exactly four hours after it. *)
Theorem triggers_four_hours_apart (now : datetime) :
  valid now = true ->
  ~ (year now = MAXYEAR /\ month now = 12 /\ day now = 31
     /\ 16 <= hour now) ->
  exists first second_,
    get_next_rebalance_time now = Some first
    /\ get_next_rebalance_time first = Some second_
    /\ instant second_ = instant first + four_hours.
Proof.
  intros Hv Hmax.
  assert (Hv' := Hv). apply valid_spec in Hv'.
  destruct (next_trigger_window now Hv) as
      (n1 & Hn1 & Hv1 & H4 & Hm & Hs & Hu & Hi & Hdate).
  { unfold last_evening. intros (? & ? & ? & ?). apply Hmax.
    repeat split; auto. lia. }
  assert (Hnot : ~ last_evening n1).
  { unfold last_evening. intros (Hy1 & Hm1 & Hd1 & Hh1).
    destruct (Z.ltb_spec (hour now) 20) as [Hlt|Hge].
    - destruct Hdate as [[= Ey Em Ed] Hh]. apply Hmax.
      repeat split; try congruence. lia.
    - lia. }
  destruct (next_trigger_window n1 Hv1 Hnot) as
      (n2 & Hn2 & _ & H4' & Hm' & Hs' & Hu' & Hi' & _).
  exists n1, n2. split; [exact Hn1|]. split; [exact Hn2|].
  rewrite (mark_instant n1 H4 Hm Hs Hu) in *.
  rewrite (mark_instant n2 H4' Hm' Hs' Hu') in *.
  unfold four_hours in *. lia.
Qed.


End ClockMore.

(** ** Instances of the further properties *)

Section MoreScenarios.
Import Dict.
Local Open Scope Q_scope.


Lemma top_n_dominates_witness :
  (0 <= 1)%Z
  /\ List.length (get_top_volatile_alts 1 3 first_last_distance three_alts)
     = Nat.min (Z.to_nat 1)
         (List.length (ranked 3 first_last_distance three_alts)).
Proof.
  assert (H : (0 <= 1)%Z) by lia.
  split; [exact H|].
  exact (proj1 (proj2 (top_n_dominates 1 3 first_last_distance three_alts)
                  H)).
Defined.



Lemma only_listed_perps_are_ranked_witness :
  instruments three_alts = get_usdt_perp_symbols (Some listing_rows)
  /\ exists row,
       In row listing_rows /\ i_symbol row = "CCC"
       /\ i_quote_coin row = "USDT".
Proof.
  assert (H : instruments three_alts
              = get_usdt_perp_symbols (Some listing_rows)) by reflexivity.
  split; [exact H|].
  destruct (only_listed_perps_are_ranked 2 3 first_last_distance three_alts
              (Some listing_rows) H ("CCC", 5))
    as (rows & row & Hr & Hi & Hs & Hq & _).
  - vm_compute. now left.
  - injection Hr as <-. exists row. auto.
Defined.

Lemma nonpositive_shorts_not_guarded_witness :
  run_once 1000 0 3 true first_last_distance three_alts short_10_at_5
  = (short_10_at_5, ZeroDivisionError).
Proof.
  exact (proj1 (nonpositive_shorts_not_guarded 1000 0 3 first_last_distance
                  true three_alts short_10_at_5) eq_refl).
Defined.

Lemma no_data_skips_cycle_witness :
  (0 < 20)%Z
  /\ run_once 1000 20 3 true first_last_distance holding_short_sym
       short_10_at_5
     = (short_10_at_5, InsufficientUniverse 0).
Proof.
  assert (Hn : (0 < 20)%Z) by lia.
  split; [exact Hn|].
  apply (no_data_skips_cycle 1000 20 3 first_last_distance true
           holding_short_sym short_10_at_5); [|exact Hn].
  intros s _. right. reflexivity.
Defined.

Lemma paper_cycle_reaches_allocation_witness :
  NoDup (instruments three_alts)
  /\ List.length
       (paper_positions
          (fst (run_once 1000 2 3 true first_last_distance three_alts init)))
     = 3%nat.
Proof.
  assert (Hnd : NoDup (instruments three_alts)).
  { repeat constructor; simpl; intuition discriminate. }
  split; [exact Hnd|].
  apply (paper_cycle_reaches_allocation 1000 2 3 first_last_distance
           three_alts init).
  - constructor.
  - exact Hnd.
  - vm_compute. split; [reflexivity | discriminate].
  - reflexivity.
  - intros e _. reflexivity.
Defined.

End MoreScenarios.

Section MoreClockScenarios.
Import Clock ClockFacts Loop ClockMore.
Local Open Scope Z_scope.

Lemma new_year_eve_not_last : ~ last_evening new_year_eve_evening.
Proof. intros [H _]. vm_compute in H. discriminate H. Qed.

Lemma next_trigger_closed_form_witness :
  valid new_year_eve_evening = true
  /\ exists nxt,
       get_next_rebalance_time new_year_eve_evening = Some nxt
       /\ instant nxt
          = (instant new_year_eve_evening / four_hours + 1) * four_hours.
Proof.
  assert (Hv : valid new_year_eve_evening = true) by reflexivity.
  split; [exact Hv|].
  exact (proj1 (next_trigger_closed_form new_year_eve_evening Hv)
           new_year_eve_not_last).
Defined.

Lemma triggers_four_hours_apart_witness :
  valid new_year_eve_evening = true
  /\ exists first second_,
       get_next_rebalance_time new_year_eve_evening = Some first
       /\ get_next_rebalance_time first = Some second_
       /\ instant second_ = instant first + four_hours.
Proof.
  assert (Hv : valid new_year_eve_evening = true) by reflexivity.
  split; [exact Hv|].
  apply (triggers_four_hours_apart new_year_eve_evening Hv).
  intros [H _]. vm_compute in H. discriminate H.
Defined.


End MoreClockScenarios.
